(** * Velox connectors: the TPC-H synthetic connector and the Hive split

    A shallow embedding of
    - the TPC-H connector header (column handle, table handle, data source,
      connector, connector factory), and
    - [velox/connectors/hive/HiveConnectorSplit.h] (bucket conversion, row id
      properties, the file split and its constructor),
    together with the properties of the split-based table-scan protocol that
    are proved about them.

    Integers of a fixed width are [Z] with the wrap-around written out;
    [double] is the IEEE 754 model [spec_float] of the Standard Library;
    [std::unordered_map] is stdpp's [gmap]; code that can throw returns a
    [Result]. *)

From Stdlib Require Import ZArith SpecFloat.
From stdpp Require Import gmap strings list.

Local Open Scope Z_scope.

(** ** Machine integers *)

Module Integers.

Definition UINT64_MAX : Z := 2 ^ 64 - 1.

(** Conversion to [uint64_t] and [size_t]: reduction modulo [2^64]. *)
Definition to_uint64 (z : Z) : Z := z mod 2 ^ 64.

(** Conversion to [int64_t]: the two's complement reading of the low 64
    bits. *)
Definition to_int64 (z : Z) : Z := (z + 2 ^ 63) mod 2 ^ 64 - 2 ^ 63.

(** Conversion to [int32_t]. *)
Definition to_int32 (z : Z) : Z := (z + 2 ^ 31) mod 2 ^ 32 - 2 ^ 31.

Definition is_uint64 (z : Z) : Prop := 0 <= z <= UINT64_MAX.
Definition is_int64 (z : Z) : Prop := - 2 ^ 63 <= z < 2 ^ 63.
Definition is_int32 (z : Z) : Prop := - 2 ^ 31 <= z < 2 ^ 31.

End Integers.

(** ** Errors

    The header throws through the macros of [velox/common/base/Exceptions.h].
    A function that can throw returns [inl e]; [inr v] is a normal return. *)

Module Exceptions.

Inductive VeloxError : Type :=
| ValidationError (message : string)
| NotSupportedError (message : string)
| TypeMismatchError (message : string)
| LookupError (message : string).

Definition Result (A : Type) : Type := VeloxError + A.

#[global] Instance result_ret : MRet Result := fun A a => inr a.

#[global] Instance result_bind : MBind Result := fun A B k r =>
  match r with
  | inl e => inl e
  | inr a => k a
  end.

(** Modelled from the spec: the macros [VELOX_CHECK_GE] and [VELOX_NYI] are
    defined in [velox/common/base/Exceptions.h], which is not part of the
    sources. Following the error taxonomy, a failed argument check is a
    [ValidationError] and an operation that is not implemented is a
    [NotSupportedError]. *)
Definition VELOX_CHECK (cond : bool) (message : string) : Result unit :=
  if cond then inr tt else inl (ValidationError message).

Definition VELOX_NYI {A} (message : string) : Result A :=
  inl (NotSupportedError message).

(** Modelled from the spec: down-casting a handle to a concrete connector
    kind checks the tag and fails with a [TypeMismatchError] on mismatch. The
    argument is the result of the [dynamic_pointer_cast], null on
    mismatch. *)
Definition checked_cast {A} (p : option A) (message : string) : Result A :=
  match p with
  | Some a => inr a
  | None => inl (TypeMismatchError message)
  end.

End Exceptions.

Export Exceptions.

(** ** IEEE 754 doubles *)

Module Double.

Definition double : Type := spec_float.

Definition zero : double := S754_zero false.

(** [1.0] and [-1.0]: mantissa [2^52], exponent [-52]. *)
Definition one : double := S754_finite false 4503599627370496 (-52).
Definition minus_one : double := S754_finite true 4503599627370496 (-52).

(** The C++ comparisons [a >= b] and [a < b]; both are false when an operand
    is NaN. *)
Definition ge (a b : double) : bool := SFleb b a.
Definition lt (a b : double) : bool := SFltb a b.

Definition VELOX_CHECK_GE (a b : double) (message : string) : Result unit :=
  VELOX_CHECK (ge a b) message.

End Double.

(** ** The TPC-H connector *)

Module Tpch.

Import Double.

Section Connector.

(** What the header takes from other headers, none of which is part of the
    sources: the table enumeration [velox::tpch::Table] and the row count
    [getRowCount] of [velox/tpch/gen/TpchGen.h], the values held by a vector,
    [common::Filter], [memory::MemoryPool], [config::ConfigBase],
    [folly::Executor], and the insert handle, commit strategy and data sink
    of [velox/connectors/Connector.h]. *)
Variable Table : Type.
Variable Value : Type.
Variable Filter : Type.
Variable MemoryPool : Type.
Variable ConnectorInsertTableHandle : Type.
Variable CommitStrategy : Type.
Variable DataSink : Type.
Variable ConfigBase : Type.
Variable Executor : Type.

(** [column_index_t] is [uint32_t]. *)
Definition column_index_t : Type := Z.

(** A row type, reduced to the names of its columns. *)
Definition RowType : Type := list string.

(** A row is the list of its column values; a [RowVector] is read row by
    row. *)
Abbreviation Row := (list Value).
Abbreviation RowVector := (list Row).

(** *** Column and table handles *)

Record TpchColumnHandle : Type := mkTpchColumnHandle {
  name_ : string
}.

Definition name (h : TpchColumnHandle) : string := name_ h.

(** The members [table_] and [scaleFactor_] of the handle; the scale factor
    is named apart from the member of the data source of the same name. *)
Record TpchTableHandle : Type := mkTpchTableHandle {
  connectorId_ : string;
  table_ : Table;
  handleScaleFactor_ : double
}.

(** The constructor: the members are initialised, then the scale factor is
    checked with [VELOX_CHECK_GE(scaleFactor, 0, ...)]; the literal [0] is
    converted to [double]. *)
Definition TpchTableHandle_ctor
    (connectorId : string) (table : Table) (scaleFactor : double)
  : Result TpchTableHandle :=
  _ ← VELOX_CHECK_GE scaleFactor zero
        "Tpch scale factor must be non-negative";
  mret (mkTpchTableHandle connectorId table scaleFactor).

(** The default argument [scaleFactor = 1.0]. *)
Definition TpchTableHandle_ctor_default
    (connectorId : string) (table : Table) : Result TpchTableHandle :=
  TpchTableHandle_ctor connectorId table one.

Definition getTable (h : TpchTableHandle) : Table := table_ h.
Definition getScaleFactor (h : TpchTableHandle) : double :=
  handleScaleFactor_ h.

(** [ConnectorTableHandle] and [ColumnHandle] are open class hierarchies; a
    handle is tagged by the connector kind that made it. The handles of the
    Hive connector are the other kind that occurs in these sources. *)
Inductive ConnectorTableHandle : Type :=
| TpchTable (h : TpchTableHandle)
| HiveTable (connectorId tableName : string).

Inductive ColumnHandle : Type :=
| TpchColumn (h : TpchColumnHandle)
| HiveColumn (columnName : string).

(** [std::dynamic_pointer_cast<TpchTableHandle>]: null on another kind. *)
Definition as_TpchTableHandle (h : ConnectorTableHandle)
  : option TpchTableHandle :=
  match h with
  | TpchTable t => Some t
  | HiveTable _ _ => None
  end.

(** [std::dynamic_pointer_cast<TpchColumnHandle>]: null on another kind. *)
Definition as_TpchColumnHandle (h : ColumnHandle) : option TpchColumnHandle :=
  match h with
  | TpchColumn c => Some c
  | HiveColumn _ => None
  end.

(** The column handles of a request down-cast one by one: null as soon as
    one of them is of another kind. *)
Definition as_TpchColumnHandles (columnHandles : gmap string ColumnHandle)
  : option (gmap string TpchColumnHandle) :=
  list_to_map <$>
    mapM (fun kv : string * ColumnHandle =>
            pair kv.1 <$> as_TpchColumnHandle kv.2)
         (map_to_list columnHandles).

(** *** Splits and the query context *)

(** Modelled from the spec: [TpchConnectorSplit.h] is not part of the
    sources. A split carries the connector id and scheduling weight of every
    [ConnectorSplit] and the row range [[splitOffset, splitEnd)] it
    addresses, both [uint64_t]. *)
Record TpchConnectorSplit : Type := mkTpchConnectorSplit {
  splitConnectorId : string;
  splitWeight : Z;
  splitOffset : Z;
  splitEnd : Z
}.

(** [ConnectorQueryCtx], of which the header uses [memoryPool()] only. *)
Record ConnectorQueryCtx : Type := mkConnectorQueryCtx {
  memoryPool : MemoryPool
}.

(** *** The data source *)

Record TpchDataSource : Type := mkTpchDataSource {
  tpchTable_ : Table;
  scaleFactor_ : double;
  tpchTableRowCount_ : Z;
  outputType_ : RowType;
  outputColumnMappings_ : list column_index_t;
  currentSplit_ : option TpchConnectorSplit;
  splitOffset_ : Z;
  splitEnd_ : Z;
  completedRows_ : Z;
  completedBytes_ : Z;
  pool_ : MemoryPool
}.

(** The collaborators of the data source. [getRowCount] is the row count of
    a table at a scale factor, [generateRows table scaleFactor offset count]
    is the generator asked for the rows [[offset, offset + count)],
    [retainedSize] is the byte accounting of a vector, and
    [resolveOutputColumns] resolves the requested columns to their indices in
    the generated schema of the table. *)
Variable getRowCount : Table -> double -> Z.
Variable generateRows : Table -> double -> Z -> Z -> RowVector.
Variable retainedSize : RowVector -> Z.
Variable resolveOutputColumns :
  Table -> RowType -> gmap string TpchColumnHandle -> list column_index_t.

(** The total row count as held in the [size_t] member
    [tpchTableRowCount_]. *)
Definition totalRowCount (table : Table) (scaleFactor : double) : Z :=
  Integers.to_uint64 (getRowCount table scaleFactor).

(** Modelled from the spec: the body of the constructor of [TpchDataSource]
    is not part of the sources. It checks that the table handle and then
    the column handles are of the connector's kind, binds the table, the
    scale factor and the allocation pool, and computes the total row count
    once; the other members keep the default member initialisers of the
    header. *)
Definition TpchDataSource_ctor
    (outputType : RowType) (tableHandle : ConnectorTableHandle)
    (columnHandles : gmap string ColumnHandle) (pool : MemoryPool)
  : Result TpchDataSource :=
  tpchTableHandle ← checked_cast (as_TpchTableHandle tableHandle)
    "TableHandle must be an instance of TpchTableHandle";
  tpchColumnHandles ← checked_cast (as_TpchColumnHandles columnHandles)
    "ColumnHandle must be an instance of TpchColumnHandle";
  mret {|
    tpchTable_ := getTable tpchTableHandle;
    scaleFactor_ := getScaleFactor tpchTableHandle;
    tpchTableRowCount_ :=
      totalRowCount (getTable tpchTableHandle)
                    (getScaleFactor tpchTableHandle);
    outputType_ := outputType;
    outputColumnMappings_ :=
      resolveOutputColumns (getTable tpchTableHandle) outputType
                           tpchColumnHandles;
    currentSplit_ := None;
    splitOffset_ := 0;
    splitEnd_ := 0;
    completedRows_ := 0;
    completedBytes_ := 0;
    pool_ := pool
  |}.

(** Row-range clamping: a bound beyond the total row count is normalised to
    it. *)
Definition clamp (total bound : Z) : Z := Z.max 0 (Z.min bound total).

(** Modelled from the spec: the body of [addSplit] is not part of the
    sources. It is valid only when no split is being processed, and sets the
    range cursor to the range of the split clamped to
    [[0, tpchTableRowCount_)]. [None] is the caller contract violation of
    adding a split while one is unfinished, for which no behaviour is
    given. *)
Definition addSplit (split : TpchConnectorSplit) (ds : TpchDataSource)
  : option TpchDataSource :=
  match currentSplit_ ds with
  | Some _ => None
  | None =>
      Some {|
        tpchTable_ := tpchTable_ ds;
        scaleFactor_ := scaleFactor_ ds;
        tpchTableRowCount_ := tpchTableRowCount_ ds;
        outputType_ := outputType_ ds;
        outputColumnMappings_ := outputColumnMappings_ ds;
        currentSplit_ := Some split;
        splitOffset_ := clamp (tpchTableRowCount_ ds) (splitOffset split);
        splitEnd_ := clamp (tpchTableRowCount_ ds) (splitEnd split);
        completedRows_ := completedRows_ ds;
        completedBytes_ := completedBytes_ ds;
        pool_ := pool_ ds
      |}
  end.

Definition addDynamicFilter
    (outputChannel : column_index_t) (filter : Filter) (ds : TpchDataSource)
  : Result TpchDataSource :=
  VELOX_NYI "Dynamic filters not supported by TpchConnector.".

(** Modelled from the spec: the body of [projectOutputColumns] is not part
    of the sources. Projection selects the generated columns named by
    [outputColumnMappings_], in the order of the request. *)
Definition projectRow (mappings : list column_index_t) (row : Row) : Row :=
  omap (fun i : column_index_t => row !! Z.to_nat i) mappings.

Definition projectOutputColumns (ds : TpchDataSource) (vector : RowVector)
  : RowVector :=
  projectRow (outputColumnMappings_ ds) <$> vector.

(** The result of [next], a [std::optional<RowVectorPtr>]: a vector
    ([Ready]), the null vector that asks for the next split ([Exhausted]),
    or no value with the future set ([Pending]). *)
Inductive NextResult : Type :=
| Ready (batch : RowVector)
| Exhausted
| Pending.

(** Modelled from the spec: the body of [next] is not part of the sources.
    With a split assigned it asks the generator for exactly
    [min(size, splitEnd_ - splitOffset_)] rows starting at the cursor,
    advances the cursor and the completed rows and bytes, and returns the
    projected rows; when the range is consumed it drops the split and
    returns the empty result. [None]: [next] without a split, for which no
    behaviour is given. *)
Definition next (size : Z) (ds : TpchDataSource)
  : option (NextResult * TpchDataSource) :=
  match currentSplit_ ds with
  | None => None
  | Some split =>
      if splitEnd_ ds <=? splitOffset_ ds then
        Some (Exhausted, {|
          tpchTable_ := tpchTable_ ds;
          scaleFactor_ := scaleFactor_ ds;
          tpchTableRowCount_ := tpchTableRowCount_ ds;
          outputType_ := outputType_ ds;
          outputColumnMappings_ := outputColumnMappings_ ds;
          currentSplit_ := None;
          splitOffset_ := splitOffset_ ds;
          splitEnd_ := splitEnd_ ds;
          completedRows_ := completedRows_ ds;
          completedBytes_ := completedBytes_ ds;
          pool_ := pool_ ds
        |})
      else
        let maxRows := Z.min size (splitEnd_ ds - splitOffset_ ds) in
        let outputVector :=
          generateRows (tpchTable_ ds) (scaleFactor_ ds)
                       (splitOffset_ ds) maxRows in
        Some (Ready (projectOutputColumns ds outputVector), {|
          tpchTable_ := tpchTable_ ds;
          scaleFactor_ := scaleFactor_ ds;
          tpchTableRowCount_ := tpchTableRowCount_ ds;
          outputType_ := outputType_ ds;
          outputColumnMappings_ := outputColumnMappings_ ds;
          currentSplit_ := Some split;
          splitOffset_ := splitOffset_ ds + maxRows;
          splitEnd_ := splitEnd_ ds;
          completedRows_ :=
            Integers.to_uint64
              (completedRows_ ds + Z.of_nat (length outputVector));
          completedBytes_ :=
            Integers.to_uint64 (completedBytes_ ds + retainedSize outputVector);
          pool_ := pool_ ds
        |})
  end.

Definition getCompletedRows (ds : TpchDataSource) : Z := completedRows_ ds.
Definition getCompletedBytes (ds : TpchDataSource) : Z := completedBytes_ ds.

(** [runtimeStats] returns the empty map. *)
Definition runtimeStats (ds : TpchDataSource) : gmap string Z := ∅.

(** *** The connector and its factory *)

Record TpchConnector : Type := mkTpchConnector {
  connectorId : string
}.

Definition createDataSource
    (connector : TpchConnector) (outputType : RowType)
    (tableHandle : ConnectorTableHandle)
    (columnHandles : gmap string ColumnHandle)
    (connectorQueryCtx : ConnectorQueryCtx)
  : Result TpchDataSource :=
  TpchDataSource_ctor outputType tableHandle columnHandles
                      (memoryPool connectorQueryCtx).

Definition createDataSink
    (connector : TpchConnector) (inputType : RowType)
    (connectorInsertTableHandle : ConnectorInsertTableHandle)
    (connectorQueryCtx : ConnectorQueryCtx) (commitStrategy : CommitStrategy)
  : Result DataSink :=
  VELOX_NYI "TpchConnector does not support data sink.".

Definition kTpchConnectorName : string := "tpch".

(** The constructor of the connector keeps the id and ignores the
    configuration and the executor; the factory passes its I/O executor. *)
Definition TpchConnector_ctor (id : string) (config : ConfigBase)
    (executor : option Executor) : TpchConnector :=
  mkTpchConnector id.

Definition newConnector (id : string) (config : ConfigBase)
    (ioExecutor cpuExecutor : option Executor) : TpchConnector :=
  TpchConnector_ctor id config ioExecutor.

(** *** The engine's side of the protocol *)

(** The pull loop over the current split: [next] is called with the batch
    sizes of [sizes] in turn until it signals that the split is exhausted,
    and the batches are concatenated. [None] when the sizes run out
    first. *)
Fixpoint drain (sizes : list Z) (ds : TpchDataSource)
  : option (RowVector * TpchDataSource) :=
  match sizes with
  | [] => None
  | size :: rest =>
      match next size ds with
      | Some (Ready batch, ds') =>
          match drain rest ds' with
          | Some (rows, ds'') => Some (batch ++ rows, ds'')
          | None => None
          end
      | Some (Exhausted, ds') => Some ([], ds')
      | Some (Pending, _) | None => None
      end
  end.

(** One split scanned to exhaustion. *)
Definition scanSplit (split : TpchConnectorSplit) (sizes : list Z)
    (ds : TpchDataSource) : option (RowVector * TpchDataSource) :=
  match addSplit split ds with
  | Some ds' => drain sizes ds'
  | None => None
  end.

(** A sequence of splits, each with its own batch sizes, fed to one data
    source one after the other. *)
Fixpoint scanSplits (work : list (TpchConnectorSplit * list Z))
    (ds : TpchDataSource) : option (RowVector * TpchDataSource) :=
  match work with
  | [] => Some ([], ds)
  | (split, sizes) :: rest =>
      match scanSplit split sizes ds with
      | Some (rows, ds') =>
          match scanSplits rest ds' with
          | Some (rows', ds'') => Some (rows ++ rows', ds'')
          | None => None
          end
      | None => None
      end
  end.

(** The calls an engine makes on a data source, and their effect on its
    state. *)
Inductive Call : Type :=
| CallAddSplit (split : TpchConnectorSplit)
| CallNext (size : Z).

Definition call (c : Call) (ds : TpchDataSource) : option TpchDataSource :=
  match c with
  | CallAddSplit split => addSplit split ds
  | CallNext size => snd <$> next size ds
  end.

Fixpoint calls (cs : list Call) (ds : TpchDataSource)
  : option TpchDataSource :=
  match cs with
  | [] => Some ds
  | c :: rest =>
      match call c ds with
      | Some ds' => calls rest ds'
      | None => None
      end
  end.

(** *** The contract of the generator *)

(** The generator returns exactly the rows it is asked for. *)
Definition generator_exact : Prop :=
  forall table scaleFactor offset count,
    0 <= offset -> 0 <= count ->
    offset + count <= totalRowCount table scaleFactor ->
    length (generateRows table scaleFactor offset count) = Z.to_nat count.

(** The generator is range addressable: a range generated in one request is
    the range generated in two consecutive requests. *)
Definition generator_range_addressable : Prop :=
  forall table scaleFactor offset count1 count2,
    0 <= offset -> 0 <= count1 -> 0 <= count2 ->
    offset + count1 + count2 <= totalRowCount table scaleFactor ->
    generateRows table scaleFactor offset (count1 + count2) =
    generateRows table scaleFactor offset count1 ++
    generateRows table scaleFactor (offset + count1) count2.

(** *** Partitions of the row space *)

Definition contains (split : TpchConnectorSplit) (i : Z) : Prop :=
  splitOffset split <= i < splitEnd split.

Definition sub_range (total : Z) (split : TpchConnectorSplit) : Prop :=
  0 <= splitOffset split <= splitEnd split /\ splitEnd split <= total.

Definition disjoint (split1 split2 : TpchConnectorSplit) : Prop :=
  forall i, contains split1 i -> ~ contains split2 i.

Fixpoint pairwise_disjoint (splits : list TpchConnectorSplit) : Prop :=
  match splits with
  | [] => True
  | split :: rest => Forall (disjoint split) rest /\ pairwise_disjoint rest
  end.

Definition covers (total : Z) (splits : list TpchConnectorSplit) : Prop :=
  forall i, 0 <= i < total -> Exists (fun split => contains split i) splits.

(** Disjoint sub-ranges of [[0, total)] that cover it. *)
Definition partitions (total : Z) (splits : list TpchConnectorSplit)
  : Prop :=
  Forall (sub_range total) splits /\ pairwise_disjoint splits /\
  covers total splits.

(** Batch sizes that scan a split to its end: the calls before the last one
    ask for at least as many rows as the split has, so that a call is left
    to see the split exhausted. A batch size is a [uint64_t]. *)
Definition requested (sizes : list Z) : Z := foldr Z.add 0 sizes.

Definition batch_schedule (split : TpchConnectorSplit) (sizes : list Z)
  : Prop :=
  sizes <> [] /\
  Forall (fun size => 0 <= size) sizes /\
  splitEnd split - splitOffset split <= requested (removelast sizes).

(** The state a data source keeps from its construction on. *)
Definition binding (ds : TpchDataSource)
  : Table * double * Z * RowType * list column_index_t * MemoryPool :=
  (tpchTable_ ds, scaleFactor_ ds, tpchTableRowCount_ ds, outputType_ ds,
   outputColumnMappings_ ds, pool_ ds).

(** *** Table handles: the scale factor check *)

Lemma lt_zero_not_ge (x : double) : lt x zero = true -> ge x zero = false.
Proof. by destruct x as [[]|[]| |[] m e]. Qed.

(** C6. Constructing a table handle with a negative scale factor, such as
    [-1.0], fails with a [ValidationError]; with a scale factor that is
    [>= 0], [0] included, it succeeds and the handle stores that scale
    factor. *)
Theorem TpchTableHandle_ctor_scaleFactor
    (connectorId : string) (table : Table) (scaleFactor : double) :
  (lt scaleFactor zero = true ->
   exists message,
     TpchTableHandle_ctor connectorId table scaleFactor =
     inl (ValidationError message)) /\
  (ge scaleFactor zero = true ->
   exists handle,
     TpchTableHandle_ctor connectorId table scaleFactor = inr handle /\
     getScaleFactor handle = scaleFactor /\ getTable handle = table) /\
  (exists message,
     TpchTableHandle_ctor connectorId table minus_one =
     inl (ValidationError message)) /\
  (exists handle,
     TpchTableHandle_ctor connectorId table zero = inr handle /\
     getScaleFactor handle = zero).
Proof.
  unfold TpchTableHandle_ctor, VELOX_CHECK_GE, VELOX_CHECK.
  split_and!.
  - intros Hneg. rewrite (lt_zero_not_ge _ Hneg). by eexists.
  - intros ->. by eexists.
  - by eexists.
  - by eexists.
Qed.

(** *** Unsupported operations *)

(** C7. [createDataSink] fails with a [NotSupportedError] on every input,
    and so does [addDynamicFilter] on every data source, column index and
    filter. *)
Theorem unsupported_operations :
  (forall connector inputType insertHandle ctx commitStrategy,
     exists message,
       createDataSink connector inputType insertHandle ctx commitStrategy =
       inl (NotSupportedError message)) /\
  (forall outputChannel filter ds,
     exists message,
       addDynamicFilter outputChannel filter ds =
       inl (NotSupportedError message)).
Proof. split; intros; by eexists. Qed.

(** *** Creating a data source *)

(** The column handles pass the down-cast exactly when each of them is of
    the connector's kind. *)
Lemma as_TpchColumnHandles_Some (columnHandles : gmap string ColumnHandle) :
  (forall name h, columnHandles !! name = Some h ->
                  is_Some (as_TpchColumnHandle h)) ->
  is_Some (as_TpchColumnHandles columnHandles).
Proof.
  intros Hkind. unfold as_TpchColumnHandles.
  apply fmap_is_Some, mapM_is_Some, Forall_forall.
  intros [name h] Hin%elem_of_map_to_list. simpl.
  apply fmap_is_Some. by eapply Hkind.
Qed.

Lemma as_TpchColumnHandles_None (columnHandles : gmap string ColumnHandle)
    (name columnName : string) :
  columnHandles !! name = Some (HiveColumn columnName) ->
  as_TpchColumnHandles columnHandles = None.
Proof.
  intros Hforeign%elem_of_map_to_list. unfold as_TpchColumnHandles.
  apply fmap_None, mapM_None, Exists_exists.
  by exists (name, HiveColumn columnName).
Qed.

(** C8, as amended. [createDataSource] fails with a [TypeMismatchError]
    when the table handle is not of the connector's kind, and also when a
    column handle is not; it raises no other error. When the table handle
    and every column handle are of its kind, it returns a new data source
    bound to the table, the scale factor and the memory pool of the
    supplied context, with no split assigned. *)
Theorem createDataSource_kind
    (connector : TpchConnector) (outputType : RowType)
    (tableHandle : ConnectorTableHandle)
    (columnHandles : gmap string ColumnHandle) (ctx : ConnectorQueryCtx) :
  (as_TpchTableHandle tableHandle = None ->
   exists message,
     createDataSource connector outputType tableHandle columnHandles ctx
     = inl (TypeMismatchError message)) /\
  (forall name columnName,
     columnHandles !! name = Some (HiveColumn columnName) ->
     exists message,
       createDataSource connector outputType tableHandle columnHandles ctx
       = inl (TypeMismatchError message)) /\
  (forall handle,
     tableHandle = TpchTable handle ->
     (forall name h, columnHandles !! name = Some h ->
                     is_Some (as_TpchColumnHandle h)) ->
     exists ds,
       createDataSource connector outputType tableHandle columnHandles ctx
       = inr ds /\
       pool_ ds = memoryPool ctx /\
       tpchTable_ ds = getTable handle /\
       scaleFactor_ ds = getScaleFactor handle /\
       outputType_ ds = outputType /\
       currentSplit_ ds = None /\
       completedRows_ ds = 0 /\ completedBytes_ ds = 0) /\
  (forall e,
     createDataSource connector outputType tableHandle columnHandles ctx
     = inl e ->
     exists message, e = TypeMismatchError message).
Proof.
  unfold createDataSource, TpchDataSource_ctor. split_and!.
  - intros ->. by eexists.
  - intros name columnName Hforeign.
    rewrite (as_TpchColumnHandles_None _ _ _ Hforeign).
    destruct (as_TpchTableHandle tableHandle); by eexists.
  - intros handle -> Hkind.
    destruct (as_TpchColumnHandles_Some _ Hkind) as [handles ->].
    by eexists.
  - intros e.
    destruct (as_TpchTableHandle tableHandle); simpl;
      [destruct (as_TpchColumnHandles columnHandles); simpl|];
      intros [= <-]; by eexists.
Qed.

(** A data source exists only for a table handle of the connector's kind,
    and it is bound to the table and the scale factor of that handle. *)
Lemma TpchDataSource_ctor_inr outputType tableHandle columnHandles pool ds :
  TpchDataSource_ctor outputType tableHandle columnHandles pool = inr ds ->
  exists handle,
    tableHandle = TpchTable handle /\
    tpchTable_ ds = getTable handle /\
    scaleFactor_ ds = getScaleFactor handle /\
    tpchTableRowCount_ ds
      = totalRowCount (getTable handle) (getScaleFactor handle) /\
    currentSplit_ ds = None /\
    splitOffset_ ds = 0 /\ splitEnd_ ds = 0 /\ pool_ ds = pool.
Proof.
  unfold TpchDataSource_ctor. destruct tableHandle as [handle|]; [|done].
  simpl. destruct (as_TpchColumnHandles columnHandles); [|done].
  simpl. intros [= <-]. by exists handle.
Qed.

(** *** The total row count is fixed at construction *)

Lemma addSplit_binding split ds ds' :
  addSplit split ds = Some ds' -> binding ds' = binding ds.
Proof.
  unfold addSplit. destruct (currentSplit_ ds); [done|].
  by intros [= <-].
Qed.

Lemma next_binding size ds result ds' :
  next size ds = Some (result, ds') -> binding ds' = binding ds.
Proof.
  unfold next. destruct (currentSplit_ ds); [|done].
  case_match; by intros [= <- <-].
Qed.

Lemma call_binding c ds ds' : call c ds = Some ds' -> binding ds' = binding ds.
Proof.
  destruct c as [split|size]; simpl.
  - apply addSplit_binding.
  - destruct (next size ds) as [[result ds'']|] eqn:Hnext; [|done].
    intros [= <-]. by eapply next_binding.
Qed.

Lemma calls_binding cs ds ds' :
  calls cs ds = Some ds' -> binding ds' = binding ds.
Proof.
  revert ds. induction cs as [|c cs IH]; intros ds; simpl.
  - by intros [= <-].
  - destruct (call c ds) as [ds1|] eqn:Hcall; [|done].
    intros Hrest. rewrite (IH _ Hrest). by apply (call_binding c).
Qed.

Lemma binding_rowCount ds ds' :
  binding ds' = binding ds -> tpchTableRowCount_ ds' = tpchTableRowCount_ ds.
Proof. unfold binding. by intros [= _ _ -> _ _ _]. Qed.


(** *** One call of [next] *)

(** C3. On a data source whose split range is clamped to the total row
    count, [next size] returns a batch of exactly
    [min(size, splitEnd_ - splitOffset_)] rows, advances the cursor by that
    amount and adds the rows and their bytes to the completed counters;
    once the range is consumed it returns the empty result and drops the
    split. *)
Theorem next_batch
    (ds : TpchDataSource) (split : TpchConnectorSplit) (size : Z) :
  generator_exact ->
  currentSplit_ ds = Some split ->
  tpchTableRowCount_ ds = totalRowCount (tpchTable_ ds) (scaleFactor_ ds) ->
  0 <= splitOffset_ ds -> splitEnd_ ds <= tpchTableRowCount_ ds ->
  0 <= size ->
  let remaining := splitEnd_ ds - splitOffset_ ds in
  (0 < remaining ->
   exists batch ds',
     next size ds = Some (Ready batch, ds') /\
     length batch = Z.to_nat (Z.min size remaining) /\
     splitOffset_ ds' = splitOffset_ ds + Z.min size remaining /\
     splitEnd_ ds' = splitEnd_ ds /\
     currentSplit_ ds' = Some split /\
     completedRows_ ds' =
       Integers.to_uint64 (completedRows_ ds + Z.min size remaining) /\
     completedBytes_ ds' =
       Integers.to_uint64
         (completedBytes_ ds +
          retainedSize
            (generateRows (tpchTable_ ds) (scaleFactor_ ds)
                          (splitOffset_ ds) (Z.min size remaining)))) /\
  (remaining <= 0 ->
   exists ds',
     next size ds = Some (Exhausted, ds') /\
     currentSplit_ ds' = None /\
     completedRows_ ds' = completedRows_ ds /\
     completedBytes_ ds' = completedBytes_ ds).
Proof.
  intros Hexact Hsplit Htotal Hoffset Hend Hsize remaining.
  unfold next. rewrite Hsplit. split; intros Hremaining.
  - rewrite (proj2 (Z.leb_gt _ _)) by (unfold remaining in *; lia).
    fold remaining. do 2 eexists. split; [done|]. simpl.
    assert (length (generateRows (tpchTable_ ds) (scaleFactor_ ds)
                      (splitOffset_ ds) (Z.min size remaining))
            = Z.to_nat (Z.min size remaining)) as Hlen.
    { apply Hexact; [done|lia|]. rewrite <- Htotal.
      unfold remaining in *. lia. }
    unfold projectOutputColumns. rewrite length_fmap, Hlen.
    split_and!; try done. f_equal. lia.
  - rewrite (proj2 (Z.leb_le _ _)) by (unfold remaining in *; lia).
    by eexists.
Qed.

(** *** Scanning a split to its end *)

Lemma generateRows_nil table scaleFactor offset :
  generator_range_addressable ->
  0 <= offset <= totalRowCount table scaleFactor ->
  generateRows table scaleFactor offset 0 = [].
Proof.
  intros Haddr Hoffset.
  pose proof (Haddr table scaleFactor offset 0 0) as Heq.
  rewrite !Z.add_0_r in Heq. apply nil_length_inv.
  apply (f_equal length) in Heq; [|lia..].
  rewrite length_app in Heq. lia.
Qed.

(** The rows of a range are the rows of its indices, one by one. *)
Lemma generateRows_by_index table scaleFactor offset count :
  generator_range_addressable ->
  0 <= offset -> 0 <= count ->
  offset + count <= totalRowCount table scaleFactor ->
  generateRows table scaleFactor offset count =
  seqZ offset count ≫= (fun i => generateRows table scaleFactor i 1).
Proof.
  intros Haddr Hoffset Hcount. rewrite <- (Z2Nat.id count) by done.
  clear Hcount. induction (Z.to_nat count) as [|n IH]; intros Hle.
  - rewrite seqZ_nil by done. simpl. apply generateRows_nil; [done|lia].
  - rewrite seqZ_S, bind_app, bind_singleton, <- IH by lia.
    rewrite Nat2Z.inj_succ, <- Z.add_1_r. apply Haddr; lia.
Qed.

Lemma requested_nonneg sizes :
  Forall (fun size => 0 <= size) sizes -> 0 <= requested sizes.
Proof. induction 1; simpl; lia. Qed.

Lemma Forall_removelast {A} (P : A -> Prop) (l : list A) :
  Forall P l -> Forall P (removelast l).
Proof.
  induction 1 as [|x l Hx Hl IH]; simpl; [constructor|].
  destruct l; by constructor.
Qed.

Lemma drain_rows sizes : forall ds split,
  generator_range_addressable ->
  currentSplit_ ds = Some split ->
  tpchTableRowCount_ ds = totalRowCount (tpchTable_ ds) (scaleFactor_ ds) ->
  0 <= splitOffset_ ds <= splitEnd_ ds ->
  splitEnd_ ds <= tpchTableRowCount_ ds ->
  sizes <> [] ->
  Forall (fun size => 0 <= size) sizes ->
  splitEnd_ ds - splitOffset_ ds <= requested (removelast sizes) ->
  exists ds',
    drain sizes ds =
      Some (projectRow (outputColumnMappings_ ds) <$>
              generateRows (tpchTable_ ds) (scaleFactor_ ds) (splitOffset_ ds)
                           (splitEnd_ ds - splitOffset_ ds), ds') /\
    binding ds' = binding ds /\ currentSplit_ ds' = None.
Proof.
  induction sizes as [|size sizes IH];
    intros ds split Haddr Hsplit Htotal Hrange Hend Hcalls Hsizes Hrows.
  { done. }
  apply Forall_cons in Hsizes as [Hsize Hsizes].
  simpl. unfold next. rewrite Hsplit.
  destruct (splitEnd_ ds <=? splitOffset_ ds) eqn:Hdone.
  - apply Z.leb_le in Hdone.
    replace (splitEnd_ ds - splitOffset_ ds) with 0 by lia.
    rewrite generateRows_nil; [|done|lia]. by eexists.
  - apply Z.leb_gt in Hdone.
    assert (sizes <> []) as Hmore.
    { intros ->. simpl in Hrows. lia. }
    assert (removelast (size :: sizes) = size :: removelast sizes) as Hlast.
    { simpl. by destruct sizes. }
    rewrite Hlast in Hrows. simpl in Hrows.
    pose proof (requested_nonneg _ (Forall_removelast _ _ Hsizes)).
    set (maxRows := Z.min size (splitEnd_ ds - splitOffset_ ds)).
    match goal with
    | |- context [drain sizes ?d] =>
        destruct (IH d split) as (ds' & -> & Hbinding & Hidle);
          simpl; try done; try (unfold maxRows; lia)
    end.
    exists ds'. split_and!; [|done..].
    unfold projectOutputColumns. rewrite <- fmap_app. do 3 f_equal.
    unfold generator_range_addressable in Haddr.
    rewrite <- Haddr by (unfold maxRows; lia). f_equal. lia.
Qed.

Lemma scanSplit_rows split sizes ds :
  generator_range_addressable ->
  currentSplit_ ds = None ->
  tpchTableRowCount_ ds = totalRowCount (tpchTable_ ds) (scaleFactor_ ds) ->
  sub_range (tpchTableRowCount_ ds) split ->
  batch_schedule split sizes ->
  exists ds',
    scanSplit split sizes ds =
      Some (projectRow (outputColumnMappings_ ds) <$>
              generateRows (tpchTable_ ds) (scaleFactor_ ds)
                           (splitOffset split)
                           (splitEnd split - splitOffset split), ds') /\
    binding ds' = binding ds /\ currentSplit_ ds' = None.
Proof.
  intros Haddr Hidle Htotal [Hrange Hend] (Hcalls & Hsizes & Hrows).
  assert (clamp (tpchTableRowCount_ ds) (splitOffset split)
          = splitOffset split) as Hclamp1 by (unfold clamp; lia).
  assert (clamp (tpchTableRowCount_ ds) (splitEnd split)
          = splitEnd split) as Hclamp2 by (unfold clamp; lia).
  unfold scanSplit, addSplit. rewrite Hidle, Hclamp1, Hclamp2.
  match goal with
  | |- context [drain sizes ?d] =>
      destruct (drain_rows sizes d split) as (ds' & Hdrain & Hbinding & ?);
        simpl; try done
  end.
  by exists ds'.
Qed.

Lemma scanSplits_rows work : forall ds,
  generator_range_addressable ->
  currentSplit_ ds = None ->
  tpchTableRowCount_ ds = totalRowCount (tpchTable_ ds) (scaleFactor_ ds) ->
  Forall (sub_range (tpchTableRowCount_ ds)) work.*1 ->
  Forall (fun w => batch_schedule w.1 w.2) work ->
  exists ds',
    scanSplits work ds =
      Some (projectRow (outputColumnMappings_ ds) <$>
              (work.*1 ≫= fun split =>
                 generateRows (tpchTable_ ds) (scaleFactor_ ds)
                              (splitOffset split)
                              (splitEnd split - splitOffset split)), ds') /\
    binding ds' = binding ds /\ currentSplit_ ds' = None.
Proof.
  induction work as [|[split sizes] work IH];
    intros ds Haddr Hidle Htotal Hsub Hsched.
  { by eexists. }
  rewrite fmap_cons in Hsub.
  apply Forall_cons in Hsub as [Hsub1 Hsub], Hsched as [Hsched1 Hsched].
  simpl.
  destruct (scanSplit_rows split sizes ds) as (ds1 & -> & Hbinding & Hidle1);
    try done.
  pose proof Hbinding as [= Htable Hscale Hcount _ Hmappings _].
  destruct (IH ds1) as (ds' & -> & Hbinding' & Hidle'); try done.
  { by rewrite Hcount, Htable, Hscale. }
  { by rewrite Hcount. }
  exists ds'. split_and!; [|congruence|done].
  by rewrite Htable, Hscale, Hmappings, fmap_app.
Qed.

(** *** Partition consistency *)

(** The row indices a split addresses. *)
Definition indices (split : TpchConnectorSplit) : list Z :=
  seqZ (splitOffset split) (splitEnd split - splitOffset split).

Lemma elem_of_indices split i : i ∈ indices split <-> contains split i.
Proof. unfold indices, contains. rewrite elem_of_seqZ. lia. Qed.

Lemma NoDup_indices splits :
  pairwise_disjoint splits -> NoDup (splits ≫= indices).
Proof.
  induction splits as [|split splits IH]; simpl.
  { intros _. constructor. }
  intros [Hdisjoint Hrest]. apply NoDup_app. split_and!.
  - apply NoDup_seqZ.
  - intros i Hi (split' & Hi' & Hin)%list_elem_of_bind.
    rewrite Forall_forall in Hdisjoint.
    apply (Hdisjoint split' Hin i); by apply elem_of_indices.
  - by apply IH.
Qed.

Lemma partitions_indices total splits :
  partitions total splits -> splits ≫= indices ≡ₚ seqZ 0 total.
Proof.
  intros (Hsub & Hdisjoint & Hcovers).
  apply NoDup_Permutation.
  - by apply NoDup_indices.
  - apply NoDup_seqZ.
  - intros i. rewrite list_elem_of_bind, elem_of_seqZ. split.
    + intros (split & Hi%elem_of_indices & Hin).
      rewrite Forall_forall in Hsub.
      destruct (Hsub split Hin) as [? ?]. unfold contains in Hi. lia.
    + intros Hi. assert (0 <= i < total) as Hex by lia.
      apply Hcovers, Exists_exists in Hex as (split & Hin & Hcontains).
      exists split. by rewrite elem_of_indices.
Qed.

Lemma generateRows_splits table scaleFactor splits :
  generator_range_addressable ->
  Forall (sub_range (totalRowCount table scaleFactor)) splits ->
  (splits ≫= fun split =>
     generateRows table scaleFactor (splitOffset split)
                  (splitEnd split - splitOffset split)) =
  (splits ≫= indices) ≫= fun i => generateRows table scaleFactor i 1.
Proof.
  intros Haddr. induction 1 as [|split splits [Hrange Hend] _ IH].
  { done. }
  rewrite !bind_cons, bind_app, IH. f_equal.
  apply generateRows_by_index; [done|lia..].
Qed.

(** The row of index [i] sits at the same place of the generated range
    whatever the range is cut out of. *)
Lemma generateRows_lookup table scaleFactor offset count i :
  generator_exact -> generator_range_addressable ->
  0 <= offset <= i -> i < offset + count ->
  offset + count <= totalRowCount table scaleFactor ->
  generateRows table scaleFactor offset count !! Z.to_nat (i - offset) =
  generateRows table scaleFactor 0 (totalRowCount table scaleFactor)
    !! Z.to_nat i.
Proof.
  intros Hexact Haddr Hoffset Hi Hend.
  remember (totalRowCount table scaleFactor) as total eqn:Htotal.
  assert (generateRows table scaleFactor 0 total =
          generateRows table scaleFactor 0 offset ++
          generateRows table scaleFactor offset count ++
          generateRows table scaleFactor (offset + count)
                       (total - (offset + count))) as ->.
  { unfold generator_range_addressable in Haddr.
    rewrite <- Haddr, <- (Haddr _ _ 0) by lia. f_equal. lia. }
  rewrite lookup_app_r; rewrite Hexact; try lia.
  rewrite lookup_app_l by (rewrite Hexact; lia).
  f_equal. lia.
Qed.

(** C1. The rows produced by scanning the splits of a partition of
    [[0, totalRowCount)] one after the other, each with batch sizes of its
    own, are a permutation of the rows of one scan of the whole range; and
    the row of index [i] is the same row in both, whatever the split
    boundaries and batch sizes. *)
Theorem partition_consistency
    (ds : TpchDataSource) (work : list (TpchConnectorSplit * list Z))
    (whole : TpchConnectorSplit) (wholeSizes : list Z) :
  generator_exact -> generator_range_addressable ->
  currentSplit_ ds = None ->
  tpchTableRowCount_ ds = totalRowCount (tpchTable_ ds) (scaleFactor_ ds) ->
  partitions (tpchTableRowCount_ ds) work.*1 ->
  Forall (fun w => batch_schedule w.1 w.2) work ->
  splitOffset whole = 0 -> splitEnd whole = tpchTableRowCount_ ds ->
  batch_schedule whole wholeSizes ->
  exists rows ds1 rowsWhole ds2,
    scanSplits work ds = Some (rows, ds1) /\
    scanSplit whole wholeSizes ds = Some (rowsWhole, ds2) /\
    rows ≡ₚ rowsWhole /\
    forall split sizes i,
      (split, sizes) ∈ work -> contains split i ->
      exists rowsSplit ds3 row,
        scanSplit split sizes ds = Some (rowsSplit, ds3) /\
        rowsSplit !! Z.to_nat (i - splitOffset split) = Some row /\
        rowsWhole !! Z.to_nat i = Some row.
Proof.
  intros Hexact Haddr Hidle Htotal Hpart Hsched Hwhole0 HwholeEnd Hwhole.
  assert (0 <= tpchTableRowCount_ ds) as Hnonneg.
  { rewrite Htotal. unfold totalRowCount, Integers.to_uint64.
    apply Z.mod_pos_bound. lia. }
  pose proof Hpart as (Hsub & _ & _).
  destruct (scanSplits_rows work ds) as (ds1 & Hscan & _); try done.
  destruct (scanSplit_rows whole wholeSizes ds) as (ds2 & HscanWhole & _);
    try done.
  { unfold sub_range. lia. }
  rewrite Hwhole0, HwholeEnd, Z.sub_0_r in HscanWhole.
  do 4 eexists. split_and!; [done|done| |].
  - apply fmap_Permutation. rewrite Htotal in Hsub.
    rewrite generateRows_splits by done.
    rewrite generateRows_by_index by (done || lia).
    apply bind_Permutation. by apply partitions_indices.
  - intros split sizes i Hin Hi.
    assert (sub_range (tpchTableRowCount_ ds) split) as Hsplit.
    { rewrite Forall_forall in Hsub. apply Hsub.
      apply list_elem_of_fmap. by exists (split, sizes). }
    assert (batch_schedule split sizes) as Hsizes.
    { rewrite Forall_forall in Hsched. by apply (Hsched (split, sizes)). }
    destruct (scanSplit_rows split sizes ds) as (ds3 & HscanSplit & _);
      try done.
    destruct Hsplit as [Hrange Hend]. unfold contains in Hi.
    assert (is_Some (generateRows (tpchTable_ ds) (scaleFactor_ ds) 0
                       (tpchTableRowCount_ ds) !! Z.to_nat i))
      as [row Hrow].
    { apply lookup_lt_is_Some. rewrite Hexact; lia. }
    exists (projectRow (outputColumnMappings_ ds) <$>
              generateRows (tpchTable_ ds) (scaleFactor_ ds)
                (splitOffset split) (splitEnd split - splitOffset split)),
      ds3, (projectRow (outputColumnMappings_ ds) row).
    split_and!; [done| |by rewrite list_lookup_fmap, Hrow].
    rewrite list_lookup_fmap, generateRows_lookup, <- Htotal, Hrow;
      (done || lia).
Qed.

(** *** Further properties of the table handle and the data source *)

Definition is_nan (x : double) : bool :=
  match x with
  | S754_nan => true
  | _ => false
  end.

(** X1. The check of the constructor sorts the doubles into two classes: NaN
    and the negative values, minus infinity included, are refused with the
    message of the check; both zeros, the positive values and plus infinity
    are accepted, and the handle holds the arguments as given, the sign of a
    negative zero included. *)
Theorem TpchTableHandle_ctor_outcome
    (connectorId : string) (table : Table) (scaleFactor : double) :
  TpchTableHandle_ctor connectorId table scaleFactor =
    (if is_nan scaleFactor || lt scaleFactor zero
     then inl (ValidationError "Tpch scale factor must be non-negative")
     else inr (mkTpchTableHandle connectorId table scaleFactor)) /\
  TpchTableHandle_ctor connectorId table S754_nan =
    inl (ValidationError "Tpch scale factor must be non-negative") /\
  TpchTableHandle_ctor connectorId table (S754_infinity true) =
    inl (ValidationError "Tpch scale factor must be non-negative") /\
  TpchTableHandle_ctor connectorId table (S754_infinity false) =
    inr (mkTpchTableHandle connectorId table (S754_infinity false)) /\
  TpchTableHandle_ctor connectorId table (S754_zero true) =
    inr (mkTpchTableHandle connectorId table (S754_zero true)).
Proof.
  split_and!; try done.
  by destruct scaleFactor as [[]|[]| |[] m e].
Qed.

Lemma binding_members ds ds' :
  binding ds' = binding ds ->
  tpchTable_ ds' = tpchTable_ ds /\ scaleFactor_ ds' = scaleFactor_ ds /\
  tpchTableRowCount_ ds' = tpchTableRowCount_ ds /\
  outputColumnMappings_ ds' = outputColumnMappings_ ds /\
  pool_ ds' = pool_ ds.
Proof. unfold binding. by intros [= -> -> -> _ -> ->]. Qed.

(** X2. A handle that came out of its constructor carries a scale factor that
    is neither negative nor NaN, and a data source created from it keeps
    that scale factor, the table and the memory pool of the context through
    every sequence of [addSplit] and [next]. *)
Theorem scaleFactor_never_negative
    (connector : TpchConnector) (id : string) (table : Table)
    (scaleFactor : double) (handle : TpchTableHandle)
    (outputType : RowType) (columnHandles : gmap string ColumnHandle)
    (ctx : ConnectorQueryCtx) (ds ds' : TpchDataSource) (cs : list Call) :
  TpchTableHandle_ctor id table scaleFactor = inr handle ->
  createDataSource connector outputType (TpchTable handle) columnHandles ctx
    = inr ds ->
  calls cs ds = Some ds' ->
  scaleFactor_ ds' = scaleFactor /\
  ge (scaleFactor_ ds') zero = true /\
  is_nan (scaleFactor_ ds') = false /\
  lt (scaleFactor_ ds') zero = false /\
  tpchTable_ ds' = table /\
  pool_ ds' = memoryPool ctx.
Proof.
  intros Hhandle Hds Hcalls.
  apply TpchDataSource_ctor_inr in Hds
    as (h & [= <-] & Htable & Hscale & _ & _ & _ & _ & Hpool).
  apply calls_binding, binding_members in Hcalls
    as (-> & -> & _ & _ & ->).
  rewrite Htable, Hscale, Hpool.
  unfold TpchTableHandle_ctor, VELOX_CHECK_GE, VELOX_CHECK in Hhandle.
  destruct (ge scaleFactor zero) eqn:Hge; [|done].
  injection Hhandle as <-. simpl. split_and!; try done.
  - by destruct scaleFactor as [[]|[]| |[] m e].
  - by destruct scaleFactor as [[]|[]| |[] m e].
Qed.

(** A batch size is a [uint64_t]. *)
Definition well_typed_call (c : Call) : Prop :=
  match c with
  | CallAddSplit _ => True
  | CallNext size => 0 <= size
  end.

(** The range cursor lies within the table. *)
Definition cursor_in_range (ds : TpchDataSource) : Prop :=
  0 <= splitOffset_ ds <= tpchTableRowCount_ ds /\
  0 <= splitEnd_ ds <= tpchTableRowCount_ ds.

Lemma totalRowCount_nonneg table scaleFactor :
  0 <= totalRowCount table scaleFactor.
Proof. unfold totalRowCount, Integers.to_uint64. apply Z.mod_pos_bound. lia. Qed.

Lemma call_cursor_in_range c ds ds' :
  well_typed_call c -> 0 <= tpchTableRowCount_ ds -> cursor_in_range ds ->
  call c ds = Some ds' -> cursor_in_range ds'.
Proof.
  intros Hsize Hcount [Hoffset Hend]. destruct c as [split|size]; simpl.
  - unfold addSplit. destruct (currentSplit_ ds); [done|].
    intros [= <-]. unfold cursor_in_range, clamp. simpl. lia.
  - unfold next. destruct (currentSplit_ ds); [|done].
    destruct (splitEnd_ ds <=? splitOffset_ ds) eqn:Hdone; simpl;
      intros [= <-]; unfold cursor_in_range; simpl; [lia|].
    apply Z.leb_gt in Hdone. simpl in Hsize. lia.
Qed.

(** X3. From its construction on, and through every sequence of [addSplit] and
    [next] with batch sizes that are [uint64_t], a data source keeps its
    range cursor inside [[0, tpchTableRowCount_]] and its row count equal
    to the total row count of its table: the state in which [next] returns
    exact batches is the only state it can reach. *)
Theorem cursor_stays_in_range
    (outputType : RowType) (tableHandle : ConnectorTableHandle)
    (columnHandles : gmap string ColumnHandle) (pool : MemoryPool)
    (ds ds' : TpchDataSource) (cs : list Call) :
  TpchDataSource_ctor outputType tableHandle columnHandles pool = inr ds ->
  Forall well_typed_call cs ->
  calls cs ds = Some ds' ->
  cursor_in_range ds' /\
  tpchTableRowCount_ ds' = totalRowCount (tpchTable_ ds') (scaleFactor_ ds').
Proof.
  intros Hctor Hsizes Hcalls.
  assert (cursor_in_range ds /\
          tpchTableRowCount_ ds
          = totalRowCount (tpchTable_ ds) (scaleFactor_ ds)) as Hstart.
  { apply TpchDataSource_ctor_inr in Hctor
      as (handle & _ & Htable & Hscale & Hcount & _ & Hoffset & Hend & _).
    unfold cursor_in_range.
    rewrite Hoffset, Hend, Hcount, Htable, Hscale.
    pose proof (totalRowCount_nonneg (getTable handle)
                  (getScaleFactor handle)). lia. }
  clear Hctor. revert ds Hstart Hcalls.
  induction Hsizes as [|c cs Hsize _ IH]; intros ds [Hrange Hcount]; simpl.
  { by intros [= <-]. }
  destruct (call c ds) as [ds1|] eqn:Hcall; [|done].
  apply IH. split.
  - eapply call_cursor_in_range; try done.
    rewrite Hcount. apply totalRowCount_nonneg.
  - apply call_binding, binding_members in Hcall as (-> & -> & -> & _).
    done.
Qed.

(** *** Progress counters *)

Lemma to_uint64_idemp z : Integers.is_uint64 z -> Integers.to_uint64 z = z.
Proof.
  unfold Integers.is_uint64, Integers.UINT64_MAX, Integers.to_uint64.
  intros Hz. apply Z.mod_small. lia.
Qed.

Lemma to_uint64_is_uint64 z : Integers.is_uint64 (Integers.to_uint64 z).
Proof.
  unfold Integers.is_uint64, Integers.UINT64_MAX, Integers.to_uint64.
  pose proof (Z.mod_pos_bound z (2 ^ 64)). lia.
Qed.

Lemma to_uint64_add_l a b :
  Integers.to_uint64 (Integers.to_uint64 a + b) = Integers.to_uint64 (a + b).
Proof. unfold Integers.to_uint64. apply Zplus_mod_idemp_l. Qed.

Lemma drain_completedRows sizes : forall ds rows ds',
  Integers.is_uint64 (completedRows_ ds) ->
  drain sizes ds = Some (rows, ds') ->
  Integers.is_uint64 (completedRows_ ds') /\
  completedRows_ ds' =
    Integers.to_uint64 (completedRows_ ds + Z.of_nat (length rows)).
Proof.
  induction sizes as [|size sizes IH]; intros ds rows ds' Htyped; simpl.
  { done. }
  unfold next. destruct (currentSplit_ ds) as [split|]; [|done].
  destruct (splitEnd_ ds <=? splitOffset_ ds).
  - intros [= <- <-]. simpl. split; [done|].
    by rewrite Z.add_0_r, to_uint64_idemp.
  - match goal with
    | |- context [drain sizes ?d] =>
        destruct (drain sizes d) as [[rows1 ds1]|] eqn:Hdrain; [|done];
          apply IH in Hdrain as [Htyped1 Hrows1];
          [|apply to_uint64_is_uint64]
    end.
    intros [= <- <-]. split; [done|]. rewrite Hrows1. simpl.
    unfold projectOutputColumns.
    rewrite to_uint64_add_l, length_app, length_fmap. f_equal. lia.
Qed.

(** X4. The completed rows reported by [getCompletedRows] are the rows the
    data source has produced: after any list of splits has been scanned,
    the counter has advanced, modulo [2^64], by the number of rows
    returned. *)
Theorem completedRows_counts_rows
    (work : list (TpchConnectorSplit * list Z)) :
  forall (ds ds' : TpchDataSource) (rows : RowVector),
  Integers.is_uint64 (getCompletedRows ds) ->
  scanSplits work ds = Some (rows, ds') ->
  getCompletedRows ds' =
    Integers.to_uint64 (getCompletedRows ds + Z.of_nat (length rows)).
Proof.
  unfold getCompletedRows.
  assert (forall ds ds' rows,
            Integers.is_uint64 (completedRows_ ds) ->
            scanSplits work ds = Some (rows, ds') ->
            Integers.is_uint64 (completedRows_ ds') /\
            completedRows_ ds' =
              Integers.to_uint64
                (completedRows_ ds + Z.of_nat (length rows))) as Hboth.
  { induction work as [|[split sizes] work IH]; intros ds ds' rows Htyped;
      simpl.
    { intros [= <- <-]. simpl. split; [done|].
      by rewrite Z.add_0_r, to_uint64_idemp. }
    unfold scanSplit, addSplit.
    destruct (currentSplit_ ds); [done|].
    match goal with
    | |- context [drain sizes ?d] =>
        destruct (drain sizes d) as [[rows1 ds1]|] eqn:Hdrain; [|done];
          apply drain_completedRows in Hdrain as [Htyped1 Hrows1];
          [|done]
    end.
    destruct (scanSplits work ds1) as [[rows2 ds2]|] eqn:Hrest; [|done].
    apply IH in Hrest as [Htyped2 Hrows2]; [|done].
    intros [= <- <-]. split; [done|].
    rewrite Hrows2, Hrows1. simpl.
    rewrite to_uint64_add_l, length_app. f_equal. lia. }
  intros ds ds' rows Htyped Hscan. by apply Hboth.
Qed.

(** *** Clamping of a split *)

(** X5. A split is never refused for its bounds: whatever range it carries, it
    is scanned as the range clamped to the table. A split that reaches
    beyond the last row returns the rows up to the last one, and a split
    that starts at or after the end of the table, or whose end is not after
    its start, returns no rows. *)
Theorem scanSplit_clamps
    (split : TpchConnectorSplit) (sizes : list Z) (ds : TpchDataSource) :
  generator_range_addressable ->
  currentSplit_ ds = None ->
  tpchTableRowCount_ ds = totalRowCount (tpchTable_ ds) (scaleFactor_ ds) ->
  let first := clamp (tpchTableRowCount_ ds) (splitOffset split) in
  let last := clamp (tpchTableRowCount_ ds) (splitEnd split) in
  sizes <> [] ->
  Forall (fun size => 0 <= size) sizes ->
  last - first <= requested (removelast sizes) ->
  exists ds',
    scanSplit split sizes ds =
      Some (if first <? last
            then projectRow (outputColumnMappings_ ds) <$>
                   generateRows (tpchTable_ ds) (scaleFactor_ ds) first
                                (last - first)
            else [], ds') /\
    binding ds' = binding ds /\ currentSplit_ ds' = None.
Proof.
  intros Haddr Hidle Htotal first last Hcalls Hsizes Hrows.
  pose proof (totalRowCount_nonneg (tpchTable_ ds) (scaleFactor_ ds))
    as Hnonneg.
  rewrite <- Htotal in Hnonneg.
  unfold scanSplit, addSplit. rewrite Hidle. fold first last.
  destruct (first <? last) eqn:Horder.
  - apply Z.ltb_lt in Horder.
    match goal with
    | |- context [drain sizes ?d] =>
        destruct (drain_rows sizes d split) as (ds' & Hdrain & Hbinding & ?);
          simpl; try done; try (unfold first, last, clamp in *; lia)
    end.
    by exists ds'.
  - apply Z.ltb_ge in Horder.
    destruct sizes as [|size sizes]; [done|]. simpl. unfold next. simpl.
    rewrite (proj2 (Z.leb_le _ _)) by done. by eexists.
Qed.

(** *** Projection *)

Lemma projectRow_cons i mappings row :
  projectRow (i :: mappings) row =
  match row !! Z.to_nat i with
  | Some value => value :: projectRow mappings row
  | None => projectRow mappings row
  end.
Proof. done. Qed.

Lemma projectRow_valid mappings row :
  Forall (fun i => 0 <= i < Z.of_nat (length row)) mappings ->
  length (projectRow mappings row) = length mappings /\
  forall (j : nat) (i : column_index_t),
    mappings !! j = Some i ->
    projectRow mappings row !! j = row !! Z.to_nat i /\
    is_Some (row !! Z.to_nat i).
Proof.
  induction 1 as [|i mappings Hi _ [IHlength IHlookup]].
  { split; [done|]. by intros j i. }
  rewrite projectRow_cons.
  destruct (row !! Z.to_nat i) as [value|] eqn:Hvalue.
  - split; [by rewrite !length_cons, IHlength|].
    intros [|j] i'; simpl.
    + intros [= <-]. by rewrite Hvalue.
    + apply IHlookup.
  - apply lookup_ge_None in Hvalue. lia.
Qed.

(** X6. Projection keeps the rows and their order and gives every row exactly
    the requested columns in the requested order: column [j] of an output
    row is the generated column that [outputColumnMappings_] names at [j].
    The indices are those of generated columns. *)
Theorem projectOutputColumns_columns
    (ds : TpchDataSource) (vector : RowVector) :
  Forall (fun row : Row =>
            Forall (fun i => 0 <= i < Z.of_nat (length row))
                   (outputColumnMappings_ ds)) vector ->
  length (projectOutputColumns ds vector) = length vector /\
  forall (r : nat) (row : Row),
    vector !! r = Some row ->
    exists out,
      projectOutputColumns ds vector !! r = Some out /\
      length out = length (outputColumnMappings_ ds) /\
      forall (j : nat) (i : column_index_t),
        outputColumnMappings_ ds !! j = Some i ->
        out !! j = row !! Z.to_nat i /\ is_Some (row !! Z.to_nat i).
Proof.
  intros Hvalid. unfold projectOutputColumns.
  split; [by rewrite length_fmap|].
  intros r row Hrow. exists (projectRow (outputColumnMappings_ ds) row).
  rewrite list_lookup_fmap, Hrow. split; [done|].
  apply projectRow_valid. rewrite Forall_forall in Hvalid.
  apply Hvalid. by eapply list_elem_of_lookup_2.
Qed.

(** *** Splits do not interfere *)

(** The rows of a split on a data source: those of its range clamped to
    the table. *)
Definition clampedRows (ds : TpchDataSource) (split : TpchConnectorSplit)
  : RowVector :=
  let first := clamp (tpchTableRowCount_ ds) (splitOffset split) in
  let last := clamp (tpchTableRowCount_ ds) (splitEnd split) in
  if first <? last
  then projectRow (outputColumnMappings_ ds) <$>
         generateRows (tpchTable_ ds) (scaleFactor_ ds) first (last - first)
  else [].

Lemma clampedRows_binding ds ds' split :
  binding ds' = binding ds -> clampedRows ds' split = clampedRows ds split.
Proof.
  intros (Htable & Hscale & Hcount & Hmappings & _)%binding_members.
  unfold clampedRows. by rewrite Htable, Hscale, Hcount, Hmappings.
Qed.

Lemma scanSplit_clampedRows split sizes ds :
  generator_range_addressable ->
  currentSplit_ ds = None ->
  tpchTableRowCount_ ds = totalRowCount (tpchTable_ ds) (scaleFactor_ ds) ->
  batch_schedule split sizes ->
  exists ds',
    scanSplit split sizes ds = Some (clampedRows ds split, ds') /\
    binding ds' = binding ds /\ currentSplit_ ds' = None.
Proof.
  intros Haddr Hidle Htotal (Hcalls & Hsizes & Hrows).
  pose proof (totalRowCount_nonneg (tpchTable_ ds) (scaleFactor_ ds))
    as Hnonneg.
  rewrite <- Htotal in Hnonneg.
  pose proof (requested_nonneg _ (Forall_removelast _ _ Hsizes)).
  unfold scanSplit, addSplit, clampedRows. rewrite Hidle.
  set (first := clamp (tpchTableRowCount_ ds) (splitOffset split)).
  set (last := clamp (tpchTableRowCount_ ds) (splitEnd split)).
  destruct (first <? last) eqn:Horder.
  - apply Z.ltb_lt in Horder.
    match goal with
    | |- context [drain sizes ?d] =>
        destruct (drain_rows sizes d split) as (ds' & Hdrain & Hbinding & ?);
          simpl; try done; try (unfold first, last, clamp in *; lia)
    end.
    by exists ds'.
  - apply Z.ltb_ge in Horder.
    destruct sizes as [|size sizes]; [done|]. simpl. unfold next. simpl.
    rewrite (proj2 (Z.leb_le _ _)) by done. by eexists.
Qed.

(** X7. The rows of the splits fed to one data source one after the other
    are the rows each split gives on a data source of its own, in the order
    of the splits: a data source carries nothing over from one split into
    the next. The splits are any splits, also ones that reach beyond the
    table. *)
Theorem scanSplits_independent
    (work : list (TpchConnectorSplit * list Z)) (ds : TpchDataSource) :
  generator_range_addressable ->
  currentSplit_ ds = None ->
  tpchTableRowCount_ ds = totalRowCount (tpchTable_ ds) (scaleFactor_ ds) ->
  Forall (fun w => batch_schedule w.1 w.2) work ->
  exists parts ds',
    scanSplits work ds = Some (concat parts, ds') /\
    currentSplit_ ds' = None /\
    Forall2 (fun (w : TpchConnectorSplit * list Z) (part : RowVector) =>
               exists ds1, scanSplit w.1 w.2 ds = Some (part, ds1))
            work parts.
Proof.
  intros Haddr Hidle Htotal Hsched.
  exists ((fun w : TpchConnectorSplit * list Z => clampedRows ds w.1)
            <$> work).
  assert (forall ds0,
            binding ds0 = binding ds -> currentSplit_ ds0 = None ->
            exists ds',
              scanSplits work ds0 =
                Some (concat ((fun w : TpchConnectorSplit * list Z =>
                                 clampedRows ds w.1) <$> work), ds') /\
              currentSplit_ ds' = None) as Hscan.
  { induction Hsched as [|[split sizes] work Hsched1 _ IH];
      intros ds0 Hbinding Hidle0.
    { by exists ds0. }
    pose proof (binding_members _ _ Hbinding)
      as (Htable & Hscale & Hcount & _).
    destruct (scanSplit_clampedRows split sizes ds0)
      as (ds1 & Hsplit & Hbinding1 & Hidle1); try done.
    { by rewrite Hcount, Htable, Hscale. }
    destruct (IH ds1) as (ds' & Hrest & Hidle'); [congruence|done|].
    exists ds'. simpl. rewrite Hsplit, Hrest.
    by rewrite (clampedRows_binding _ _ _ Hbinding). }
  destruct (Hscan ds) as (ds' & Hall & Hidle'); [done..|].
  exists ds'. split_and!; [done..|].
  clear Hscan Hall. induction Hsched as [|[split sizes] work Hsched1 _ IH];
    [constructor|].
  rewrite fmap_cons. constructor; [|done].
  destruct (scanSplit_clampedRows split sizes ds) as (ds1 & Hsplit & _);
    try done.
  by exists ds1.
Qed.

End Connector.

(** *** A worked instance

    One table of four rows with two generated columns, of which the output
    takes the second and then the first. *)

Definition exampleRowCount (table : unit) (scaleFactor : double) : Z := 4.

Definition exampleRows (table : unit) (scaleFactor : double)
    (offset count : Z) : list (list Z) :=
  (fun i => [i; 10 * i]) <$> seqZ offset count.

Definition exampleSize (rows : list (list Z)) : Z :=
  16 * Z.of_nat (length rows).

Definition exampleColumns (table : unit) (outputType : RowType)
    (columnHandles : gmap string TpchColumnHandle) : list column_index_t :=
  [1; 0].

Definition exampleHandle : TpchTableHandle unit :=
  mkTpchTableHandle unit "tpch" tt one.

Definition exampleSource : TpchDataSource unit unit :=
  mkTpchDataSource unit unit tt one 4 ["b"; "a"] [1; 0] None 0 0 0 0 tt.

Definition exampleSplit (offset end_ : Z) : TpchConnectorSplit :=
  mkTpchConnectorSplit "tpch" 0 offset end_.

Definition exampleWork : list (TpchConnectorSplit * list Z) :=
  [(exampleSplit 2 4, [1; 5; 1]); (exampleSplit 0 2, [2; 1; 1])].

Definition exampleCalls : list Call :=
  [CallAddSplit (exampleSplit 1 4); CallNext 2; CallNext 5; CallNext 1].

Lemma exampleSource_ctor :
  TpchDataSource_ctor unit unit exampleRowCount exampleColumns ["b"; "a"]
    (TpchTable unit exampleHandle) ∅ tt = inr exampleSource.
Proof. reflexivity. Qed.

Lemma exampleRows_exact :
  generator_exact unit Z exampleRowCount exampleRows.
Proof.
  intros table scaleFactor offset count _ _ _. unfold exampleRows.
  by rewrite length_fmap, length_seqZ.
Qed.

Lemma exampleRows_range_addressable :
  generator_range_addressable unit Z exampleRowCount exampleRows.
Proof.
  intros table scaleFactor offset count1 count2 _ Hcount1 Hcount2 _.
  unfold exampleRows. by rewrite seqZ_app, fmap_app.
Qed.

Lemma exampleWork_partitions : partitions 4 exampleWork.*1.
Proof.
  split_and!.
  - repeat constructor; simpl; lia.
  - simpl. split_and!; try done. repeat constructor.
    intros i [? ?] [? ?]. simpl in *. lia.
  - intros i Hi. destruct (decide (i < 2)).
    + apply Exists_cons_tl, Exists_cons_hd. unfold contains. simpl. lia.
    + apply Exists_cons_hd. unfold contains. simpl. lia.
Qed.

Lemma exampleWork_schedules :
  Forall (fun w : TpchConnectorSplit * list Z => batch_schedule w.1 w.2)
    exampleWork.
Proof.
  repeat first [apply List.Forall_nil | apply List.Forall_cons];
    (split_and!; [done| |simpl; lia]);
    repeat first [apply List.Forall_nil | apply List.Forall_cons; [lia|]].
Qed.

Example exampleWork_rows :
  fst <$> scanSplits unit Z unit exampleRows exampleSize exampleWork
            exampleSource
  = Some [[20; 2]; [30; 3]; [0; 0]; [10; 1]].
Proof. reflexivity. Qed.

Example exampleWhole_rows :
  fst <$> scanSplit unit Z unit exampleRows exampleSize (exampleSplit 0 4)
            [3; 3; 3] exampleSource
  = Some [[0; 0]; [10; 1]; [20; 2]; [30; 3]].
Proof. reflexivity. Qed.

(** A split that reaches beyond the table is clamped, not refused. *)
Example exampleClamped_rows :
  fst <$> scanSplit unit Z unit exampleRows exampleSize (exampleSplit 3 9)
            [2; 2] exampleSource
  = Some [[30; 3]].
Proof. reflexivity. Qed.

Lemma partition_consistency_witness :
  exists rows ds1 rowsWhole ds2,
    scanSplits unit Z unit exampleRows exampleSize exampleWork exampleSource
      = Some (rows, ds1) /\
    scanSplit unit Z unit exampleRows exampleSize (exampleSplit 0 4)
      [3; 3; 3] exampleSource = Some (rowsWhole, ds2) /\
    rows ≡ₚ rowsWhole /\
    forall split sizes i,
      (split, sizes) ∈ exampleWork -> contains split i ->
      exists rowsSplit ds3 row,
        scanSplit unit Z unit exampleRows exampleSize split sizes
          exampleSource = Some (rowsSplit, ds3) /\
        rowsSplit !! Z.to_nat (i - splitOffset split) = Some row /\
        rowsWhole !! Z.to_nat i = Some row.
Proof.
  apply (partition_consistency unit Z unit exampleRowCount exampleRows
           exampleSize exampleSource exampleWork (exampleSplit 0 4)
           [3; 3; 3]).
  - exact exampleRows_exact.
  - exact exampleRows_range_addressable.
  - reflexivity.
  - reflexivity.
  - exact exampleWork_partitions.
  - exact exampleWork_schedules.
  - reflexivity.
  - reflexivity.
  - split_and!; [done| |simpl; lia].
    repeat first [apply List.Forall_nil | apply List.Forall_cons; [lia|]].
Defined.

(** A data source whose member holds two rows although its table has
    four. *)
Definition exampleStale : TpchDataSource unit unit :=
  mkTpchDataSource unit unit tt one 2 ["b"; "a"] [1; 0] None 0 0 0 0 tt.

Example exampleStale_rows :
  fst <$> scanSplit unit Z unit exampleRows exampleSize (exampleSplit 0 4)
            [5; 5] exampleStale
  = Some [[0; 0]; [10; 1]].
Proof. reflexivity. Qed.


Lemma createDataSource_kind_counterexample :
  as_TpchTableHandle unit (TpchTable unit exampleHandle)
    = Some exampleHandle /\
  createDataSource unit unit exampleRowCount exampleColumns
    (mkTpchConnector "tpch") ["a"] (TpchTable unit exampleHandle)
    {["a" := HiveColumn "a"]} (mkConnectorQueryCtx unit tt)
  = inl (TypeMismatchError
           "ColumnHandle must be an instance of TpchColumnHandle").
Proof. split; [reflexivity|]. vm_compute. reflexivity. Qed.

Lemma createDataSource_kind_witness :
  (exists message,
     createDataSource unit unit exampleRowCount exampleColumns
       (mkTpchConnector "tpch") ["a"] (HiveTable unit "hive" "t")
       {["a" := TpchColumn (mkTpchColumnHandle "a")]}
       (mkConnectorQueryCtx unit tt)
     = inl (TypeMismatchError message)) /\
  (exists ds,
     createDataSource unit unit exampleRowCount exampleColumns
       (mkTpchConnector "tpch") ["a"] (TpchTable unit exampleHandle)
       {["a" := TpchColumn (mkTpchColumnHandle "a")]}
       (mkConnectorQueryCtx unit tt)
     = inr ds /\
     pool_ unit unit ds = tt /\ currentSplit_ unit unit ds = None).
Proof.
  split.
  - apply (proj1 (createDataSource_kind unit unit exampleRowCount
                    exampleColumns (mkTpchConnector "tpch") ["a"]
                    (HiveTable unit "hive" "t")
                    {["a" := TpchColumn (mkTpchColumnHandle "a")]}
                    (mkConnectorQueryCtx unit tt))).
    reflexivity.
  - destruct (proj1 (proj2 (proj2
               (createDataSource_kind unit unit exampleRowCount
                  exampleColumns (mkTpchConnector "tpch") ["a"]
                  (TpchTable unit exampleHandle)
                  {["a" := TpchColumn (mkTpchColumnHandle "a")]}
                  (mkConnectorQueryCtx unit tt))))
               exampleHandle eq_refl)
      as (ds & Hds & Hpool & _ & _ & _ & Hsplit & _).
    + intros name h [<- <-]%lookup_singleton_Some. by eexists.
    + exists ds. split; [exact Hds|]. split; [exact Hpool|exact Hsplit].
Defined.

Lemma next_batch_witness :
  exists ds1 batch ds2,
    addSplit unit unit (exampleSplit 1 4) exampleSource = Some ds1 /\
    next unit Z unit exampleRows exampleSize 2 ds1
      = Some (Ready Z batch, ds2) /\
    length batch = 2%nat /\
    splitOffset_ unit unit ds2 = 3 /\
    completedRows_ unit unit ds2 = 2.
Proof.
  eexists. 
  destruct (next_batch unit Z unit exampleRowCount exampleRows exampleSize
              (mkTpchDataSource unit unit tt one 4 ["b"; "a"] [1; 0]
                 (Some (exampleSplit 1 4)) 1 4 0 0 tt)
              (exampleSplit 1 4) 2)
    as [Hready _];
    [exact exampleRows_exact|reflexivity|reflexivity|simpl; lia|simpl; lia
    |lia|].
  destruct Hready as (batch & ds2 & Hnext & Hlength & Hoffset & _ & _
                      & Hrows & _); [simpl; lia|].
  exists batch, ds2. split; [reflexivity|].
  split; [exact Hnext|]. split; [exact Hlength|].
  split; [exact Hoffset|exact Hrows].
Defined.

Lemma TpchTableHandle_ctor_scaleFactor_witness :
  (exists message,
     TpchTableHandle_ctor unit "tpch" tt minus_one
     = inl (ValidationError message)) /\
  (exists handle,
     TpchTableHandle_ctor unit "tpch" tt one = inr handle /\
     getScaleFactor unit handle = one /\ getTable unit handle = tt).
Proof.
  split.
  - apply (proj1 (TpchTableHandle_ctor_scaleFactor unit "tpch" tt
                    minus_one)).
    reflexivity.
  - apply (proj1 (proj2 (TpchTableHandle_ctor_scaleFactor unit "tpch" tt
                           one))).
    reflexivity.
Defined.

(** *** The further properties on the worked instance *)

Lemma exampleCalls_well_typed : Forall well_typed_call exampleCalls.
Proof.
  repeat first [apply List.Forall_nil | apply List.Forall_cons]; simpl; lia.
Qed.

Lemma scaleFactor_never_negative_witness :
  exists ds',
    calls unit Z unit exampleRows exampleSize exampleCalls exampleSource
      = Some ds' /\
    scaleFactor_ unit unit ds' = one /\
    ge (scaleFactor_ unit unit ds') zero = true /\
    pool_ unit unit ds' = tt.
Proof.
  destruct (calls unit Z unit exampleRows exampleSize exampleCalls
              exampleSource) as [ds'|] eqn:Hcalls; [|discriminate].
  destruct (scaleFactor_never_negative unit Z unit exampleRowCount
              exampleRows exampleSize exampleColumns
              (mkTpchConnector "tpch") "tpch" tt one exampleHandle
              ["b"; "a"] ∅ (mkConnectorQueryCtx unit tt)
              exampleSource ds' exampleCalls)
    as (Hscale & Hge & _ & _ & _ & Hpool);
    [reflexivity|exact exampleSource_ctor|exact Hcalls|].
  exists ds'. split; [reflexivity|].
  split; [exact Hscale|]. split; [exact Hge|exact Hpool].
Defined.

Lemma cursor_stays_in_range_witness :
  exists ds',
    calls unit Z unit exampleRows exampleSize exampleCalls exampleSource
      = Some ds' /\
    cursor_in_range unit unit ds'.
Proof.
  destruct (calls unit Z unit exampleRows exampleSize exampleCalls
              exampleSource) as [ds'|] eqn:Hcalls; [|discriminate].
  exists ds'. split; [reflexivity|].
  apply (cursor_stays_in_range unit Z unit exampleRowCount exampleRows
           exampleSize exampleColumns ["b"; "a"]
           (TpchTable unit exampleHandle) ∅ tt exampleSource ds'
           exampleCalls).
  - exact exampleSource_ctor.
  - exact exampleCalls_well_typed.
  - exact Hcalls.
Defined.

Lemma completedRows_counts_rows_witness :
  exists rows ds',
    scanSplits unit Z unit exampleRows exampleSize exampleWork exampleSource
      = Some (rows, ds') /\
    getCompletedRows unit unit ds' =
      Integers.to_uint64
        (getCompletedRows unit unit exampleSource + Z.of_nat (length rows)).
Proof.
  assert (is_Some (scanSplits unit Z unit exampleRows exampleSize
                     exampleWork exampleSource)) as [[rows ds'] Hscan].
  { vm_compute. eexists. reflexivity. }
  exists rows, ds'. split; [exact Hscan|].
  apply (completedRows_counts_rows unit Z unit exampleRows exampleSize
           exampleWork exampleSource ds' rows); [|exact Hscan].
  vm_compute. split; intros Hgt; discriminate Hgt.
Defined.

Lemma scanSplit_clamps_witness :
  (exists ds',
     scanSplit unit Z unit exampleRows exampleSize (exampleSplit 3 9) [2; 2]
       exampleSource = Some ([[30; 3]], ds')) /\
  (exists ds',
     scanSplit unit Z unit exampleRows exampleSize (exampleSplit 7 9) [2]
       exampleSource = Some ([], ds')).
Proof.
  split.
  - destruct (scanSplit_clamps unit Z unit exampleRowCount exampleRows
                exampleSize (exampleSplit 3 9) [2; 2] exampleSource)
      as (ds' & Hscan & _);
      [exact exampleRows_range_addressable|reflexivity|reflexivity
      |discriminate| |simpl; unfold clamp; simpl; lia|].
    + repeat first [apply List.Forall_nil | apply List.Forall_cons; [lia|]].
    + exists ds'. exact Hscan.
  - destruct (scanSplit_clamps unit Z unit exampleRowCount exampleRows
                exampleSize (exampleSplit 7 9) [2] exampleSource)
      as (ds' & Hscan & _);
      [exact exampleRows_range_addressable|reflexivity|reflexivity
      |discriminate| |simpl; unfold clamp; simpl; lia|].
    + repeat first [apply List.Forall_nil | apply List.Forall_cons; [lia|]].
    + exists ds'. exact Hscan.
Defined.

Lemma projectOutputColumns_columns_witness :
  projectOutputColumns unit Z unit exampleSource [[0; 0]; [1; 10]]
    = [[0; 0]; [10; 1]] /\
  exists out,
    projectOutputColumns unit Z unit exampleSource [[0; 0]; [1; 10]] !! 1%nat
      = Some out /\
    length out = 2%nat /\ out !! 0%nat = Some 10 /\ out !! 1%nat = Some 1.
Proof.
  split; [reflexivity|].
  destruct (projectOutputColumns_columns unit Z unit exampleSource
              [[0; 0]; [1; 10]]) as [_ Hrows].
  { repeat first [apply List.Forall_nil | apply List.Forall_cons];
      simpl; lia. }
  destruct (Hrows 1%nat [1; 10] eq_refl) as (out & Hout & Hlength & Hcols).
  exists out. split; [exact Hout|]. split; [exact Hlength|].
  split.
  - exact (proj1 (Hcols 0%nat 1 eq_refl)).
  - exact (proj1 (Hcols 1%nat 0 eq_refl)).
Defined.

(** Splits of which one reaches beyond the four rows of the table. *)
Definition exampleBeyond : list (TpchConnectorSplit * list Z) :=
  [(exampleSplit 3 9, [4; 4; 1]); (exampleSplit 0 2, [2; 1])].

Lemma exampleBeyond_schedules :
  Forall (fun w : TpchConnectorSplit * list Z => batch_schedule w.1 w.2)
    exampleBeyond.
Proof.
  repeat first [apply List.Forall_nil | apply List.Forall_cons];
    (split_and!; [done| |simpl; lia]);
    repeat first [apply List.Forall_nil | apply List.Forall_cons; [lia|]].
Qed.

Example exampleBeyond_rows :
  fst <$> scanSplits unit Z unit exampleRows exampleSize exampleBeyond
            exampleSource
  = Some [[30; 3]; [0; 0]; [10; 1]].
Proof. reflexivity. Qed.

Lemma scanSplits_independent_witness :
  exists parts ds',
    scanSplits unit Z unit exampleRows exampleSize exampleBeyond
      exampleSource = Some (concat parts, ds') /\
    currentSplit_ unit unit ds' = None /\
    Forall2 (fun (w : TpchConnectorSplit * list Z) (part : list (list Z)) =>
               exists ds1,
                 scanSplit unit Z unit exampleRows exampleSize w.1 w.2
                   exampleSource = Some (part, ds1))
            exampleBeyond parts.
Proof.
  apply (scanSplits_independent unit Z unit exampleRowCount exampleRows
           exampleSize exampleBeyond exampleSource).
  - exact exampleRows_range_addressable.
  - reflexivity.
  - reflexivity.
  - exact exampleBeyond_schedules.
Defined.

End Tpch.

(** ** The Hive connector split *)

Module Hive.

(** *** Structured documents

    [folly::dynamic], reduced to the values a split is written with: null,
    integers (held as [int64_t]), strings, arrays, and objects as lists of
    key and value in which the first entry of a key counts. *)
#[local] Unset Elimination Schemes.

Inductive dynamic : Type :=
| DNull
| DInt (i : Z)
| DString (s : string)
| DArray (items : list dynamic)
| DObject (fields : list (string * dynamic)).

#[local] Set Elimination Schemes.

Fixpoint assoc (key : string) (fields : list (string * dynamic))
  : option dynamic :=
  match fields with
  | [] => None
  | (k, v) :: rest => if String.eqb k key then Some v else assoc key rest
  end.

(** [obj[key]], with [None] when [obj] is not an object or has no such
    key. *)
Definition field (key : string) (obj : dynamic) : option dynamic :=
  match obj with
  | DObject fields => assoc key fields
  | _ => None
  end.

Definition asInt (d : dynamic) : option Z :=
  match d with
  | DInt i => Some i
  | _ => None
  end.

Definition asString (d : dynamic) : option string :=
  match d with
  | DString s => Some s
  | _ => None
  end.

Definition asArray (d : dynamic) : option (list dynamic) :=
  match d with
  | DArray items => Some items
  | _ => None
  end.

(** An integer of any width is stored as [int64_t]. *)
Definition dynamic_int (z : Z) : dynamic := DInt (Integers.to_int64 z).

(** A [std::optional] of a scalar is stored as the scalar or as null. *)
Definition dynamic_optional {A} (enc : A -> dynamic) (o : option A)
  : dynamic :=
  match o with
  | Some a => enc a
  | None => DNull
  end.

Definition optional_of {A} (dec : dynamic -> option A) (d : dynamic)
  : option (option A) :=
  match d with
  | DNull => Some None
  | _ => Some <$> dec d
  end.

(** A [std::unordered_map] with string keys is stored as an object. *)
Definition dynamic_map {V} (enc : V -> dynamic) (m : gmap string V)
  : dynamic :=
  DObject (prod_map id enc <$> map_to_list m).

Definition map_of {V} (dec : dynamic -> option V) (d : dynamic)
  : option (gmap string V) :=
  match d with
  | DObject fields =>
      list_to_map <$>
        mapM (fun kv : string * dynamic => pair kv.1 <$> dec kv.2) fields
  | _ => None
  end.

Section Split.

(** What the header takes from headers that are not part of the sources:
    [dwio::common::FileFormat] with its conversions to and from a string,
    [HiveColumnHandle] with its serialisation, [FileProperties], the rows a
    reader produces, and the hash of the bucket columns of a row. *)
Variable FileFormat : Type.
Variable HiveColumnHandle : Type.
Variable FileProperties : Type.
Variable Row : Type.

Variable toString : FileFormat -> string.
Variable toFileFormat : string -> FileFormat.
Variable serializeColumnHandle : HiveColumnHandle -> dynamic.
Variable createColumnHandle : dynamic -> option HiveColumnHandle.
Variable hashBucketColumns : list HiveColumnHandle -> Row -> Z.

Record HiveBucketConversion : Type := mkHiveBucketConversion {
  tableBucketCount : Z;
  partitionBucketCount : Z;
  bucketColumnHandles : list HiveColumnHandle
}.

Record RowIdProperties : Type := mkRowIdProperties {
  metadataVersion : Z;
  partitionId : Z;
  tableGuid : string
}.

(** The split. [connectorId] and [splitWeight] are the members of the base
    [ConnectorSplit]; [extraFileInfo] is a shared pointer to a string, null
    or not. *)
Record HiveConnectorSplit : Type := mkHiveConnectorSplit {
  connectorId : string;
  splitWeight : Z;
  filePath : string;
  fileFormat : FileFormat;
  start : Z;
  length : Z;
  partitionKeys : gmap string (option string);
  tableBucketNumber : option Z;
  bucketConversion : option HiveBucketConversion;
  customSplitInfo : gmap string string;
  extraFileInfo : option string;
  serdeParameters : gmap string string;
  infoColumns : gmap string string;
  properties : option FileProperties;
  rowIdProperties : option RowIdProperties
}.

(** The constructor. It has no parameter for [bucketConversion], which is
    default initialised to [std::nullopt]. *)
Definition HiveConnectorSplit_ctor
    (connectorId : string) (_filePath : string) (_fileFormat : FileFormat)
    (_start : Z) (_length : Z)
    (_partitionKeys : gmap string (option string))
    (_tableBucketNumber : option Z)
    (_customSplitInfo : gmap string string)
    (_extraFileInfo : option string)
    (_serdeParameters : gmap string string)
    (_splitWeight : Z)
    (_infoColumns : gmap string string)
    (_properties : option FileProperties)
    (_rowIdProperties : option RowIdProperties)
  : HiveConnectorSplit :=
  {| connectorId := connectorId;
     splitWeight := _splitWeight;
     filePath := _filePath;
     fileFormat := _fileFormat;
     start := _start;
     length := _length;
     partitionKeys := _partitionKeys;
     tableBucketNumber := _tableBucketNumber;
     bucketConversion := None;
     customSplitInfo := _customSplitInfo;
     extraFileInfo := _extraFileInfo;
     serdeParameters := _serdeParameters;
     infoColumns := _infoColumns;
     properties := _properties;
     rowIdProperties := _rowIdProperties |}.

(** The constructor called with a connector id, a file path and a file
    format only: every other parameter takes its default argument. *)
Definition HiveConnectorSplit_ctor_defaults
    (connectorId : string) (_filePath : string) (_fileFormat : FileFormat)
  : HiveConnectorSplit :=
  HiveConnectorSplit_ctor connectorId _filePath _fileFormat
    0 Integers.UINT64_MAX ∅ None ∅ None ∅ 0 ∅ None None.

(** Assignment to the public member [bucketConversion], the only way to give
    a split a bucket conversion. *)
Definition set_bucketConversion
    (conversion : option HiveBucketConversion) (split : HiveConnectorSplit)
  : HiveConnectorSplit :=
  {| connectorId := connectorId split;
     splitWeight := splitWeight split;
     filePath := filePath split;
     fileFormat := fileFormat split;
     start := start split;
     length := length split;
     partitionKeys := partitionKeys split;
     tableBucketNumber := tableBucketNumber split;
     bucketConversion := conversion;
     customSplitInfo := customSplitInfo split;
     extraFileInfo := extraFileInfo split;
     serdeParameters := serdeParameters split;
     infoColumns := infoColumns split;
     properties := properties split;
     rowIdProperties := rowIdProperties split |}.

(** *** The bucket invariant *)

(** What the data model asks of a split that has a bucket conversion. *)
Definition bucket_invariant (split : HiveConnectorSplit) : Prop :=
  match bucketConversion split with
  | None => True
  | Some conversion =>
      0 < partitionBucketCount conversion /\
      partitionBucketCount conversion <= tableBucketCount conversion /\
      (partitionBucketCount conversion | tableBucketCount conversion) /\
      exists bucket,
        tableBucketNumber split = Some bucket /\
        0 <= bucket < tableBucketCount conversion
  end.

(** The members are in the range of their C++ types. *)
Definition well_typed_conversion (conversion : HiveBucketConversion)
  : Prop :=
  Integers.is_int32 (tableBucketCount conversion) /\
  Integers.is_int32 (partitionBucketCount conversion).

Definition well_typed_rowId (rowId : RowIdProperties) : Prop :=
  Integers.is_int64 (metadataVersion rowId) /\ Integers.is_int64 (partitionId rowId).

Definition option_Forall {A} (P : A -> Prop) (o : option A) : Prop :=
  match o with
  | Some a => P a
  | None => True
  end.

Definition well_typed (split : HiveConnectorSplit) : Prop :=
  Integers.is_int64 (splitWeight split) /\
  Integers.is_uint64 (start split) /\ Integers.is_uint64 (length split) /\
  option_Forall Integers.is_int32 (tableBucketNumber split) /\
  option_Forall well_typed_conversion (bucketConversion split) /\
  option_Forall well_typed_rowId (rowIdProperties split).

(** *** The bucket conversion filter *)

(** Modelled from the spec: the filter is applied by the reader of the
    split, which is not part of the sources. The bucket of a row is the hash
    of the values of its bucket columns modulo the bucket count of the
    table. *)
Definition bucketOf (conversion : HiveBucketConversion) (row : Row) : Z :=
  hashBucketColumns (bucketColumnHandles conversion) row
    mod tableBucketCount conversion.

(** Modelled from the spec: with a bucket conversion, a row is retained
    when its bucket equals the bucket number of the split, and discarded
    otherwise; without one, nothing is filtered. *)
Definition retained (split : HiveConnectorSplit) (row : Row) : bool :=
  match bucketConversion split with
  | None => true
  | Some conversion =>
      bool_decide (Some (bucketOf conversion row) = tableBucketNumber split)
  end.

Definition bucketConversionFilter (split : HiveConnectorSplit)
    (rows : list Row) : list Row :=
  List.filter (retained split) rows.

(** *** The persisted form *)

(** Modelled from the spec: the bodies of [serialize], [create] and
    [registerSerDe] are not part of the sources. The persisted form is a
    key-value document carrying the type tag under ["name"], by which the
    registry resolves it, and the fields [filePath], [fileFormat], [start],
    [length], [partitionKeys], [tableBucketNumber], [bucketConversion],
    [customSplitInfo], [serdeParameters], [infoColumns] and
    [rowIdProperties], and no others; the optional structures
    [bucketConversion] and [rowIdProperties] have a key only when they are
    present. *)
Definition serializeBucketConversion (conversion : HiveBucketConversion)
  : dynamic :=
  DObject [
    ("tableBucketCount", dynamic_int (tableBucketCount conversion));
    ("partitionBucketCount", dynamic_int (partitionBucketCount conversion));
    ("bucketColumnHandles",
       DArray (serializeColumnHandle <$> bucketColumnHandles conversion))
  ].

Definition createBucketConversion (obj : dynamic)
  : option HiveBucketConversion :=
  tableBucketCount ← field "tableBucketCount" obj ≫= asInt;
  partitionBucketCount ← field "partitionBucketCount" obj ≫= asInt;
  handles ← field "bucketColumnHandles" obj ≫= asArray;
  bucketColumnHandles ← mapM createColumnHandle handles;
  Some (mkHiveBucketConversion (Integers.to_int32 tableBucketCount)
          (Integers.to_int32 partitionBucketCount) bucketColumnHandles).

Definition serializeRowIdProperties (rowId : RowIdProperties) : dynamic :=
  DObject [
    ("metadataVersion", dynamic_int (metadataVersion rowId));
    ("partitionId", dynamic_int (partitionId rowId));
    ("tableGuid", DString (tableGuid rowId))
  ].

Definition createRowIdProperties (obj : dynamic) : option RowIdProperties :=
  metadataVersion ← field "metadataVersion" obj ≫= asInt;
  partitionId ← field "partitionId" obj ≫= asInt;
  tableGuid ← field "tableGuid" obj ≫= asString;
  Some (mkRowIdProperties metadataVersion partitionId tableGuid).

(** A key that is written only when the member has a value. *)
Definition optional_field {A} (key : string) (enc : A -> dynamic)
    (o : option A) : list (string * dynamic) :=
  match o with
  | Some a => [(key, enc a)]
  | None => []
  end.

Definition optional_member {A} (key : string) (dec : dynamic -> option A)
    (obj : dynamic) : option (option A) :=
  match field key obj with
  | Some d => Some <$> dec d
  | None => Some None
  end.

Definition serialize (split : HiveConnectorSplit) : dynamic :=
  DObject ([
    ("name", DString "HiveConnectorSplit");
    ("filePath", DString (filePath split));
    ("fileFormat", DString (toString (fileFormat split)));
    ("start", dynamic_int (start split));
    ("length", dynamic_int (length split));
    ("partitionKeys",
       dynamic_map (dynamic_optional DString) (partitionKeys split));
    ("tableBucketNumber",
       dynamic_optional dynamic_int (tableBucketNumber split));
    ("customSplitInfo", dynamic_map DString (customSplitInfo split));
    ("serdeParameters", dynamic_map DString (serdeParameters split));
    ("infoColumns", dynamic_map DString (infoColumns split))
  ] ++ optional_field "bucketConversion" serializeBucketConversion
         (bucketConversion split)
    ++ optional_field "rowIdProperties" serializeRowIdProperties
         (rowIdProperties split)).

(** The members that the persisted form does not carry: the connector id
    and the weight of the base [ConnectorSplit], [extraFileInfo] and
    [properties]. What [create] gives them is fixed neither by the header
    nor by the persisted form, and is left open: whatever it is, it is
    computed from the document. *)
Variable connectorIdOf : dynamic -> string.
Variable splitWeightOf : dynamic -> Z.
Variable extraFileInfoOf : dynamic -> option string.
Variable propertiesOf : dynamic -> option FileProperties.

(** [create] reads the fields back, builds the split with the constructor
    and assigns the bucket conversion, for which the constructor has no
    parameter. An integer is converted from [int64_t] to the type of its
    member. *)
Definition create (obj : dynamic) : option HiveConnectorSplit :=
  filePath ← field "filePath" obj ≫= asString;
  fileFormat ← field "fileFormat" obj ≫= asString;
  start ← field "start" obj ≫= asInt;
  length ← field "length" obj ≫= asInt;
  partitionKeys ←
    field "partitionKeys" obj ≫= map_of (optional_of asString);
  tableBucketNumber ← field "tableBucketNumber" obj ≫= optional_of asInt;
  customSplitInfo ← field "customSplitInfo" obj ≫= map_of asString;
  serdeParameters ← field "serdeParameters" obj ≫= map_of asString;
  infoColumns ← field "infoColumns" obj ≫= map_of asString;
  bucketConversion ←
    optional_member "bucketConversion" createBucketConversion obj;
  rowIdProperties ←
    optional_member "rowIdProperties" createRowIdProperties obj;
  Some (set_bucketConversion bucketConversion
          (HiveConnectorSplit_ctor (connectorIdOf obj) filePath
             (toFileFormat fileFormat)
             (Integers.to_uint64 start) (Integers.to_uint64 length)
             partitionKeys (Integers.to_int32 <$> tableBucketNumber)
             customSplitInfo (extraFileInfoOf obj) serdeParameters
             (splitWeightOf obj) infoColumns (propertiesOf obj)
             rowIdProperties)).

(** The type-tag registry: [registerSerDe] enters [create] under the tag of
    the split, and a document is deserialised by the entry of its tag. *)
Definition registerSerDe
    (registry : gmap string (dynamic -> option HiveConnectorSplit))
  : gmap string (dynamic -> option HiveConnectorSplit) :=
  <["HiveConnectorSplit" := create]> registry.

Definition deserialize
    (registry : gmap string (dynamic -> option HiveConnectorSplit))
    (obj : dynamic) : option HiveConnectorSplit :=
  name ← field "name" obj ≫= asString;
  creator ← registry !! name;
  creator obj.

(** The serialisation of a component loses nothing. *)
Definition lossless {A} (enc : A -> dynamic) (dec : dynamic -> option A)
  : Prop :=
  forall a, dec (enc a) = Some a.

(** The members of a split that the persisted form carries. *)
Definition persisted (split : HiveConnectorSplit)
  : string * FileFormat * Z * Z * gmap string (option string) * option Z *
    option HiveBucketConversion * gmap string string * gmap string string *
    gmap string string * option RowIdProperties :=
  (filePath split, fileFormat split, start split, length split,
   partitionKeys split, tableBucketNumber split, bucketConversion split,
   customSplitInfo split, serdeParameters split, infoColumns split,
   rowIdProperties split).

(** *** Construction with default arguments *)

(** C10. A split constructed with a connector id, a file path and a file
    format only has [start = 0], [length = 2^64 - 1], no partition keys, no
    bucket number and weight [0]. *)
Theorem HiveConnectorSplit_defaults
    (id path : string) (format : FileFormat) :
  let split := HiveConnectorSplit_ctor_defaults id path format in
  connectorId split = id /\ filePath split = path /\
  fileFormat split = format /\
  start split = 0 /\
  length split = 2 ^ 64 - 1 /\
  partitionKeys split = ∅ /\
  tableBucketNumber split = None /\
  splitWeight split = 0.
Proof. by split_and!. Qed.

(** *** The bucket invariant is not enforced *)

(** C9, as the code has it. The constructor leaves [bucketConversion]
    empty, so every split it returns satisfies the bucket invariant; a
    conversion is attached by assignment afterwards, and nothing checks the
    counts or the bucket number then. *)
Theorem HiveConnectorSplit_ctor_bucket_invariant
    (id path : string) (format : FileFormat) (start length : Z)
    (partitionKeys : gmap string (option string))
    (tableBucketNumber : option Z)
    (customSplitInfo : gmap string string) (extraFileInfo : option string)
    (serdeParameters : gmap string string) (splitWeight : Z)
    (infoColumns : gmap string string)
    (properties : option FileProperties)
    (rowIdProperties : option RowIdProperties) :
  let split :=
    HiveConnectorSplit_ctor id path format start length partitionKeys
      tableBucketNumber customSplitInfo extraFileInfo serdeParameters
      splitWeight infoColumns properties rowIdProperties in
  bucketConversion split = None /\ bucket_invariant split /\
  forall conversion,
    bucketConversion (set_bucketConversion conversion split) = conversion.
Proof. by split_and!. Qed.

(** *** The bucket conversion filter *)

Lemma retained_bucket split conversion row :
  bucketConversion split = Some conversion ->
  retained split row = true <->
  Some (hashBucketColumns (bucketColumnHandles conversion) row
          mod tableBucketCount conversion) = tableBucketNumber split.
Proof.
  intros Hconversion. unfold retained, bucketOf. rewrite Hconversion.
  by rewrite bool_decide_eq_true.
Qed.

(** C4. With a bucket conversion on the split, the filter keeps a row if
    and only if the hash of its bucket columns modulo the table bucket count
    equals the bucket number of the split. *)
Theorem bucketConversionFilter_spec
    (split : HiveConnectorSplit) (conversion : HiveBucketConversion)
    (rows : list Row) (row : Row) :
  bucketConversion split = Some conversion ->
  (retained split row = true <->
   Some (hashBucketColumns (bucketColumnHandles conversion) row
           mod tableBucketCount conversion) = tableBucketNumber split) /\
  (row ∈ bucketConversionFilter split rows <->
   row ∈ rows /\
   Some (hashBucketColumns (bucketColumnHandles conversion) row
           mod tableBucketCount conversion) = tableBucketNumber split).
Proof.
  intros Hconversion. split; [by apply retained_bucket|].
  unfold bucketConversionFilter.
  rewrite !list_elem_of_In, filter_In, retained_bucket by done. done.
Qed.

(** The example of eight table buckets, four partition buckets and bucket
    number five: a row passes exactly when its hash is [5] modulo [8]. A row
    whose hash is [1] modulo [8] belongs to the same partition bucket, [1],
    and is discarded. *)
Lemma retained_8_4_5 split handles row :
  bucketConversion split = Some (mkHiveBucketConversion 8 4 handles) ->
  tableBucketNumber split = Some 5 ->
  (retained split row = true <-> hashBucketColumns handles row mod 8 = 5) /\
  (hashBucketColumns handles row mod 8 = 1 ->
   hashBucketColumns handles row mod 4 = 5 mod 4 /\
   retained split row = false).
Proof.
  intros Hconversion Hbucket.
  pose proof (retained_bucket split _ row Hconversion) as Hretained.
  rewrite Hbucket in Hretained. simpl in Hretained. split.
  - rewrite Hretained. split; [by intros [= ->]|by intros ->].
  - intros Hmod. split.
    + change (5 mod 4) with 1. clear Hretained. revert Hmod.
      generalize (hashBucketColumns handles row). intros hash.
      Z.div_mod_to_equations. lia.
    + apply not_true_is_false. rewrite Hretained, Hmod. by intros [=].
Qed.

(** *** The round trip through the persisted form *)

Lemma to_int64_id z : Integers.is_int64 z -> Integers.to_int64 z = z.
Proof.
  unfold Integers.is_int64, Integers.to_int64. intros Hz.
  rewrite Z.mod_small; lia.
Qed.

Lemma to_uint64_to_int64 z :
  Integers.is_uint64 z -> Integers.to_uint64 (Integers.to_int64 z) = z.
Proof.
  unfold Integers.is_uint64, Integers.UINT64_MAX, Integers.to_uint64, Integers.to_int64.
  intros Hz. Z.div_mod_to_equations. lia.
Qed.

Lemma to_int32_to_int64 z :
  Integers.is_int32 z -> Integers.to_int32 (Integers.to_int64 z) = z.
Proof.
  unfold Integers.is_int32, Integers.to_int32, Integers.to_int64.
  intros Hz. Z.div_mod_to_equations. lia.
Qed.

Lemma map_of_dynamic_map {V} (enc : V -> dynamic)
    (dec : dynamic -> option V) (m : gmap string V) :
  lossless enc dec -> map_of dec (dynamic_map enc m) = Some m.
Proof.
  intros Hlossless. unfold map_of, dynamic_map.
  rewrite mapM_fmap_Some.
  - simpl. by rewrite list_to_map_to_list.
  - intros [k v]. simpl. by rewrite Hlossless.
Qed.

Lemma optional_of_dynamic_int (o : option Z) :
  optional_of asInt (dynamic_optional dynamic_int o)
  = Some (Integers.to_int64 <$> o).
Proof. by destruct o. Qed.

Lemma to_int32_to_int64_optional (o : option Z) :
  option_Forall Integers.is_int32 o ->
  Integers.to_int32 <$> (Integers.to_int64 <$> o) = o.
Proof.
  destruct o as [z|]; [|done]. simpl. intros Hz.
  by rewrite to_int32_to_int64.
Qed.

Lemma lossless_string : lossless DString asString.
Proof. by intros s. Qed.

Lemma lossless_optional_string :
  lossless (dynamic_optional DString) (optional_of asString).
Proof. by intros [s|]. Qed.

Lemma createBucketConversion_serialize conversion :
  lossless serializeColumnHandle createColumnHandle ->
  well_typed_conversion conversion ->
  createBucketConversion (serializeBucketConversion conversion)
  = Some conversion.
Proof.
  intros Hhandle [Htable Hpartition].
  unfold createBucketConversion, serializeBucketConversion. simpl.
  rewrite mapM_fmap_Some by done. simpl.
  rewrite !to_int32_to_int64 by done. by destruct conversion.
Qed.

Lemma createRowIdProperties_serialize rowId :
  well_typed_rowId rowId ->
  createRowIdProperties (serializeRowIdProperties rowId) = Some rowId.
Proof.
  intros [Hversion Hpartition].
  unfold createRowIdProperties, serializeRowIdProperties. simpl.
  rewrite !to_int64_id by done. by destruct rowId.
Qed.

(** What [create] reads under each key of a serialised split. *)
Lemma optional_members_serialize split :
  optional_member "bucketConversion" createBucketConversion
    (serialize split)
  = match bucketConversion split with
    | Some conversion =>
        Some <$> createBucketConversion
                   (serializeBucketConversion conversion)
    | None => Some None
    end /\
  optional_member "rowIdProperties" createRowIdProperties (serialize split)
  = match rowIdProperties split with
    | Some rowId =>
        Some <$> createRowIdProperties (serializeRowIdProperties rowId)
    | None => Some None
    end.
Proof.
  destruct split as [id weight path format start length keys bucket
    [conversion|] custom extra serde info props [rowId|]];
    by split_and!.
Qed.

Lemma create_serialize_persisted split :
  (forall format, toFileFormat (toString format) = format) ->
  lossless serializeColumnHandle createColumnHandle ->
  well_typed split ->
  exists restored,
    create (serialize split) = Some restored /\
    persisted restored = persisted split.
Proof.
  intros Hformat Hhandle Htyped.
  destruct Htyped
    as (Hweight & Hstart & Hlength & Hbucket & Hconversion & HrowId).
  unfold create.
  destruct (optional_members_serialize split) as (-> & ->).
  change (field "filePath" (serialize split) ≫= asString)
    with (Some (filePath split)).
  change (field "fileFormat" (serialize split) ≫= asString)
    with (Some (toString (fileFormat split))).
  change (field "start" (serialize split) ≫= asInt)
    with (Some (Integers.to_int64 (start split))).
  change (field "length" (serialize split) ≫= asInt)
    with (Some (Integers.to_int64 (length split))).
  change (field "partitionKeys" (serialize split)
            ≫= map_of (optional_of asString))
    with (map_of (optional_of asString)
            (dynamic_map (dynamic_optional DString)
               (partitionKeys split))).
  change (field "tableBucketNumber" (serialize split) ≫= optional_of asInt)
    with (optional_of asInt
            (dynamic_optional dynamic_int (tableBucketNumber split))).
  change (field "customSplitInfo" (serialize split) ≫= map_of asString)
    with (map_of asString (dynamic_map DString (customSplitInfo split))).
  change (field "serdeParameters" (serialize split) ≫= map_of asString)
    with (map_of asString (dynamic_map DString (serdeParameters split))).
  change (field "infoColumns" (serialize split) ≫= map_of asString)
    with (map_of asString (dynamic_map DString (infoColumns split))).
  rewrite !map_of_dynamic_map
    by (apply lossless_string || apply lossless_optional_string).
  rewrite optional_of_dynamic_int.
  cbn [mbind option_bind].
  rewrite Hformat, !to_uint64_to_int64, to_int32_to_int64_optional by done.
  assert (match bucketConversion split with
          | Some conversion =>
              Some <$> createBucketConversion
                         (serializeBucketConversion conversion)
          | None => Some None
          end = Some (bucketConversion split)) as ->.
  { destruct (bucketConversion split); [|done].
    by rewrite createBucketConversion_serialize. }
  assert (match rowIdProperties split with
          | Some rowId =>
              Some <$> createRowIdProperties
                         (serializeRowIdProperties rowId)
          | None => Some None
          end = Some (rowIdProperties split)) as ->.
  { destruct (rowIdProperties split); [|done].
    by rewrite createRowIdProperties_serialize. }
  cbn [mbind option_bind]. by eexists.
Qed.

Lemma serialize_persisted split other :
  persisted other = persisted split -> serialize other = serialize split.
Proof.
  unfold persisted, serialize.
  by intros [= -> -> -> -> -> -> -> -> -> -> ->].
Qed.


(** *** Bucket conversion: the new buckets of a file

    The table has [tableBucketCount] buckets, the file was written for one
    of [partitionBucketCount] buckets, and the second count divides the
    first. *)

(** The buckets of the table that the file of partition bucket [oldBucket]
    holds: [oldBucket], [oldBucket + partitionBucketCount], ... *)
Definition newBuckets (conversion : HiveBucketConversion) (oldBucket : Z)
  : list Z :=
  (fun k => oldBucket + k * partitionBucketCount conversion) <$>
    seqZ 0 (tableBucketCount conversion / partitionBucketCount conversion).

(** X8. The rows a split keeps lie in the partition bucket that its bucket
    number belongs to, and its bucket number is a bucket of the table. *)
Theorem retained_in_partition_bucket
    (split : HiveConnectorSplit) (conversion : HiveBucketConversion)
    (bucket : Z) (row : Row) :
  bucketConversion split = Some conversion ->
  tableBucketNumber split = Some bucket ->
  0 < partitionBucketCount conversion ->
  (partitionBucketCount conversion | tableBucketCount conversion) ->
  0 < tableBucketCount conversion ->
  retained split row = true ->
  hashBucketColumns (bucketColumnHandles conversion) row
    mod partitionBucketCount conversion
  = bucket mod partitionBucketCount conversion /\
  0 <= bucket < tableBucketCount conversion /\
  bucket ∈ newBuckets conversion (bucket mod partitionBucketCount conversion).
Proof.
  intros Hconversion Hbucket Hpartition Hdivide Htable Hretained.
  apply (retained_bucket _ _ _ Hconversion) in Hretained.
  rewrite Hbucket in Hretained. injection Hretained as <-.
  set (hash := hashBucketColumns (bucketColumnHandles conversion) row).
  set (p := partitionBucketCount conversion) in *.
  set (t := tableBucketCount conversion) in *.
  pose proof (Z.mod_pos_bound hash t Htable) as Hrange.
  split_and!; [by rewrite Z.mod_mod_divide|lia|lia|].
  unfold newBuckets. fold p t. apply list_elem_of_fmap.
  exists (hash mod t / p). split.
  - pose proof (Z.div_mod (hash mod t) p). lia.
  - apply elem_of_seqZ. destruct Hdivide as [k Hk].
    assert (t / p = k) as -> by (rewrite Hk; apply Z.div_mul; lia).
    split; [apply Z.div_pos; lia|].
    rewrite Z.add_0_l. apply Z.div_lt_upper_bound; lia.
Qed.

(** X9. A split whose bucket number is missing, or is not a bucket of the
    table, keeps no row at all. *)
Theorem bucketConversionFilter_out_of_range
    (split : HiveConnectorSplit) (conversion : HiveBucketConversion)
    (rows : list Row) :
  bucketConversion split = Some conversion ->
  0 < tableBucketCount conversion ->
  match tableBucketNumber split with
  | Some bucket => ~ 0 <= bucket < tableBucketCount conversion
  | None => True
  end ->
  bucketConversionFilter split rows = [].
Proof.
  intros Hconversion Htable Hbucket. unfold bucketConversionFilter.
  induction rows as [|row rows IH]; simpl; [done|].
  destruct (retained split row) eqn:Hretained; [|done].
  apply (retained_bucket _ _ _ Hconversion) in Hretained.
  destruct (tableBucketNumber split) as [bucket|]; [|done].
  injection Hretained as <-. destruct Hbucket.
  by apply Z.mod_pos_bound.
Qed.

Lemma filter_cons_bool {A} (f : A -> bool) (x : A) (l : list A) :
  List.filter f (x :: l) =
  if f x then x :: List.filter f l else List.filter f l.
Proof. done. Qed.

Lemma bind_filter_skip {A} (P : Z -> A -> bool) (row : A) (rows : list A)
    (buckets : list Z) :
  (forall bucket, bucket ∈ buckets -> P bucket row = false) ->
  (buckets ≫= fun bucket => List.filter (P bucket) (row :: rows)) =
  (buckets ≫= fun bucket => List.filter (P bucket) rows).
Proof.
  intros Hskip. apply Forall_bind_ext, Forall_forall.
  intros bucket Hin. simpl. by rewrite Hskip.
Qed.

Lemma bind_filter_once {A} (P : Z -> A -> bool) (row : A) (rows : list A)
    (buckets : list Z) (bucket : Z) :
  NoDup buckets -> bucket ∈ buckets ->
  (forall bucket', bucket' ∈ buckets ->
                   P bucket' row = true <-> bucket' = bucket) ->
  (buckets ≫= fun bucket' => List.filter (P bucket') (row :: rows)) ≡ₚ
  row :: (buckets ≫= fun bucket' => List.filter (P bucket') rows).
Proof.
  induction 1 as [|first buckets Hfresh Hnodup IH]; intros Hin Honce.
  { by apply elem_of_nil in Hin. }
  rewrite !bind_cons, filter_cons_bool.
  destruct (decide (first = bucket)) as [->|Hother].
  - rewrite (proj2 (Honce bucket Hin)) by done.
    rewrite bind_filter_skip; [done|].
    intros bucket' Hin'. apply not_true_is_false. intros Htrue.
    apply Honce in Htrue; [|by right]. by subst.
  - apply elem_of_cons in Hin as [->|Hin]; [done|].
    destruct (P first row) eqn:Hfirst.
    { apply Honce in Hfirst; [done|by left]. }
    rewrite IH; [|done|].
    + by rewrite Permutation_middle.
    + intros bucket' Hin'. apply Honce. by right.
Qed.

(** X10. The splits of the new buckets of a file share its rows out: when every
    row of the file hashes to the partition bucket of the file, the rows
    kept by the splits of its new buckets, taken together, are the rows of
    the file, each exactly once. *)
Theorem bucket_conversion_shares_file
    (conversion : HiveBucketConversion)
    (splitOf : Z -> HiveConnectorSplit) (oldBucket : Z) (rows : list Row) :
  0 < partitionBucketCount conversion ->
  (partitionBucketCount conversion | tableBucketCount conversion) ->
  0 < tableBucketCount conversion ->
  (forall bucket,
     bucketConversion (splitOf bucket) = Some conversion /\
     tableBucketNumber (splitOf bucket) = Some bucket) ->
  Forall (fun row =>
            hashBucketColumns (bucketColumnHandles conversion) row
              mod partitionBucketCount conversion = oldBucket) rows ->
  (newBuckets conversion oldBucket ≫= fun bucket =>
     bucketConversionFilter (splitOf bucket) rows) ≡ₚ rows.
Proof.
  intros Hpartition Hdivide Htable Hsplits Hrows.
  unfold bucketConversionFilter.
  assert (NoDup (newBuckets conversion oldBucket)) as Hnodup.
  { unfold newBuckets. apply NoDup_fmap_2; [|apply NoDup_seqZ].
    intros k1 k2 Heq. nia. }
  induction Hrows as [|row rows Hrow _ IH].
  { clear Hnodup.
    induction (newBuckets conversion oldBucket) as [|first buckets IH];
      [done|].
    rewrite bind_cons. exact IH. }
  set (bucket := hashBucketColumns (bucketColumnHandles conversion) row
                   mod tableBucketCount conversion).
  destruct (Hsplits bucket) as [Hconversion Hbucket].
  assert (retained (splitOf bucket) row = true) as Hretained.
  { apply (retained_bucket _ _ _ Hconversion). by rewrite Hbucket. }
  destruct (retained_in_partition_bucket (splitOf bucket) conversion bucket
              row) as (Hold & _ & Hin); try done.
  rewrite Hrow in Hold. rewrite <- Hold in Hin.
  rewrite (bind_filter_once (fun bucket' => retained (splitOf bucket')) row
             rows _ bucket), IH; try done.
  intros bucket' _. destruct (Hsplits bucket') as [Hconversion' Hbucket'].
  rewrite (retained_bucket _ _ _ Hconversion'), Hbucket'. fold bucket.
  split; [by intros [= ->]|by intros ->].
Qed.

End Split.

(** *** A worked instance

    File formats are the two strings below, column handles are column
    names, file properties are a file size, and a row is the hash of its
    bucket columns. *)

Definition exampleToString (format : bool) : string :=
  if format then "DWRF" else "PARQUET".

Definition exampleToFileFormat (s : string) : bool := String.eqb s "DWRF".

Definition exampleHash (handles : list string) (row : Z) : Z := row.

Definition exampleConversion : HiveBucketConversion string :=
  mkHiveBucketConversion string 8 4 ["c0"; "c1"].

Definition exampleSplit : HiveConnectorSplit bool string Z :=
  set_bucketConversion bool string Z (Some exampleConversion)
    (HiveConnectorSplit_ctor bool string Z "hive" "/warehouse/t/part-1"
       true 128 Integers.UINT64_MAX
       {["ds" := Some "2024-01-01"; "region" := None]}
       (Some 5) {["k" := "v"]} (Some "extra") {["serde" := "lazy"]} (-7)
       {["$file_size" := "4096"]} (Some 4096)
       (Some (mkRowIdProperties 3 (-1) "guid"))).

(** A split whose bucket conversion has more partition buckets than table
    buckets and a bucket number beyond both. *)
Definition uncheckedSplit : HiveConnectorSplit bool string Z :=
  set_bucketConversion bool string Z
    (Some (mkHiveBucketConversion string 3 4 []))
    (HiveConnectorSplit_ctor bool string Z "hive" "/warehouse/t/part-0"
       true 0 Integers.UINT64_MAX ∅ (Some 7) ∅ None ∅ 0 ∅ None None).

Example exampleSplit_length_serialized :
  field "length" (serialize bool string Z exampleToString DString
                    exampleSplit)
  = Some (DInt (-1)).
Proof. reflexivity. Qed.

Example exampleFilter :
  bucketConversionFilter bool string Z Z exampleHash exampleSplit
    [5; 13; 1; 9; 21; 4]
  = [5; 13; 21].
Proof. reflexivity. Qed.

Lemma exampleSplit_well_typed : well_typed bool string Z exampleSplit.
Proof. repeat split; vm_compute; congruence. Qed.

Lemma bucket_invariant_counterexample :
  bucketConversion bool string Z uncheckedSplit
    = Some (mkHiveBucketConversion string 3 4 []) /\
  tableBucketNumber bool string Z uncheckedSplit = Some 7 /\
  well_typed bool string Z uncheckedSplit /\
  ~ bucket_invariant bool string Z uncheckedSplit.
Proof.
  split_and!; try done.
  unfold bucket_invariant. simpl. lia.
Qed.

Lemma bucketConversionFilter_spec_witness :
  (13 ∈ bucketConversionFilter bool string Z Z exampleHash exampleSplit
          [5; 13; 1; 9; 21; 4]) /\
  ~ (1 ∈ bucketConversionFilter bool string Z Z exampleHash exampleSplit
           [5; 13; 1; 9; 21; 4]).
Proof.
  split.
  - apply (proj2 (bucketConversionFilter_spec bool string Z Z exampleHash
                    exampleSplit exampleConversion [5; 13; 1; 9; 21; 4]
                    13 eq_refl)).
    split; [|reflexivity]. apply list_elem_of_In. simpl. tauto.
  - intros Hin.
    apply (proj2 (bucketConversionFilter_spec bool string Z Z exampleHash
                    exampleSplit exampleConversion [5; 13; 1; 9; 21; 4]
                    1 eq_refl)) in Hin.
    destruct Hin as [_ Hbucket]. discriminate Hbucket.
Defined.

(** A split that differs from [exampleSplit] in the four members outside
    the persisted form only. *)
Definition exampleOther : HiveConnectorSplit bool string Z :=
  set_bucketConversion bool string Z (Some exampleConversion)
    (HiveConnectorSplit_ctor bool string Z "hive-2" "/warehouse/t/part-1"
       true 128 Integers.UINT64_MAX
       {["ds" := Some "2024-01-01"; "region" := None]}
       (Some 5) {["k" := "v"]} None {["serde" := "lazy"]} 3
       {["$file_size" := "4096"]} None
       (Some (mkRowIdProperties 3 (-1) "guid"))).

Lemma exampleOther_well_typed : well_typed bool string Z exampleOther.
Proof. repeat split; vm_compute; congruence. Qed.



(** *** The further properties on the worked instance *)

(** The splits of the file of partition bucket [1], one for each bucket of
    the table. *)
Definition exampleSplitOf (bucket : Z) : HiveConnectorSplit bool string Z :=
  set_bucketConversion bool string Z (Some exampleConversion)
    (HiveConnectorSplit_ctor bool string Z "hive" "/warehouse/t/part-1"
       true 0 Integers.UINT64_MAX ∅ (Some bucket) ∅ None ∅ 0 ∅ None None).

Example exampleNewBuckets : newBuckets string exampleConversion 1 = [1; 5].
Proof. reflexivity. Qed.

Lemma retained_in_partition_bucket_witness :
  exampleHash ["c0"; "c1"] 13 mod 4 = 5 mod 4 /\
  0 <= 5 < 8 /\
  5 ∈ newBuckets string exampleConversion (5 mod 4).
Proof.
  apply (retained_in_partition_bucket bool string Z Z exampleHash
           exampleSplit exampleConversion 5 13);
    try reflexivity.
  exists 2. reflexivity.
Defined.

Lemma bucketConversionFilter_out_of_range_witness :
  bucketConversionFilter bool string Z Z exampleHash (exampleSplitOf 8)
    [5; 13; 1; 8; 16] = [].
Proof.
  apply (bucketConversionFilter_out_of_range bool string Z Z exampleHash
           (exampleSplitOf 8) exampleConversion [5; 13; 1; 8; 16]).
  - reflexivity.
  - reflexivity.
  - simpl. lia.
Defined.

Lemma bucket_conversion_shares_file_witness :
  (newBuckets string exampleConversion 1 ≫= fun bucket =>
     bucketConversionFilter bool string Z Z exampleHash
       (exampleSplitOf bucket) [5; 13; 1; 9; 21]) ≡ₚ [5; 13; 1; 9; 21].
Proof.
  apply (bucket_conversion_shares_file bool string Z Z exampleHash
           exampleConversion exampleSplitOf 1 [5; 13; 1; 9; 21]).
  - reflexivity.
  - exists 2. reflexivity.
  - reflexivity.
  - intros bucket. split; reflexivity.
  - repeat first [apply List.Forall_nil | apply List.Forall_cons];
      reflexivity.
Defined.

End Hive.
